(** * The JOS kernel monitor (kern/monitor.c)

    A shallow embedding of the command interpreter of the kernel monitor:
    the in-place tokenizer of [runcmd], the command table and its
    handlers, and the read-eval loop of [monitor].  Integers of the C
    program are [Z] with the 32-bit wrap-around written out; the command
    buffer is a list of characters addressed by offset and updated in
    place; console output, page-table queries and prompts are recorded
    as a trace of events. *)

From Stdlib Require Import ZArith Bool Ascii String List Lia.
Import ListNotations.

Local Open Scope Z_scope.

(** ** Machine integers *)

(** [uint32_t]: conversion of an integer to 32 bits, modulo 2^32. *)
Definition to_uint32 (x : Z) : Z := x mod 2 ^ 32.

(** [int]: conversion of an integer to 32 bits, two's complement. *)
Definition to_int32 (x : Z) : Z := (x + 2 ^ 31) mod 2 ^ 32 - 2 ^ 31.

(** ** C strings in a mutable buffer *)

Definition NUL : ascii := "000"%char.

Definition is_nul (c : ascii) : bool := Ascii.eqb c NUL.

(** [#define WHITESPACE "\t\r\n "] *)
Definition WHITESPACE : list ascii :=
  ["009"%char; "013"%char; "010"%char; " "%char].

(** [strchr(s, c) != NULL]: the terminator of [s] is part of the string,
    so the character 0 is always found. *)
Definition strchr (s : list ascii) (c : ascii) : bool :=
  existsb (Ascii.eqb c) s || is_nul c.

(** [*buf] at offset [p]; the buffer handed over by [readline] ends with
    a terminator, and nothing is read behind it. *)
Definition peek (mem : list ascii) (p : nat) : ascii := nth p mem NUL.

(** [*buf = c] at offset [p]. *)
Fixpoint poke (mem : list ascii) (p : nat) (c : ascii) : list ascii :=
  match mem, p with
  | [], _ => []
  | _ :: mem', O => c :: mem'
  | x :: mem', S p' => x :: poke mem' p' c
  end.

(** The C string that starts at a pointer: the characters up to the
    first terminator. *)
Fixpoint cstr_of (l : list ascii) : list ascii :=
  match l with
  | [] => []
  | c :: l' => if is_nul c then [] else c :: cstr_of l'
  end.

Definition cstr (mem : list ascii) (p : nat) : list ascii :=
  cstr_of (skipn p mem).

(** [#define MAXARGS 16] *)
Definition MAXARGS : Z := 16.

(** ** The tokenizer of [runcmd]

    The loops run on a step budget; [None] is an exhausted budget.
    [parse_total] below shows that the budget [runcmd] gives is always
    enough. *)

(** [while ( *buf && strchr(WHITESPACE, *buf)) *buf++ = 0;] *)
Fixpoint gobble (fuel : nat) (mem : list ascii) (p : nat)
  : option (list ascii * nat) :=
  match fuel with
  | O => None
  | S k =>
      let c := peek mem p in
      if negb (is_nul c) && strchr WHITESPACE c
      then gobble k (poke mem p NUL) (S p)
      else Some (mem, p)
  end.

(** [while ( *buf && !strchr(WHITESPACE, *buf)) buf++;] *)
Fixpoint scan_arg (fuel : nat) (mem : list ascii) (p : nat) : option nat :=
  match fuel with
  | O => None
  | S k =>
      let c := peek mem p in
      if negb (is_nul c) && negb (strchr WHITESPACE c)
      then scan_arg k mem (S p)
      else Some p
  end.

(** What the parsing loop leaves behind: either the early return after
    the "Too many arguments" message, or the buffer as modified together
    with [argv], a list of pointers (offsets) into it; [argc] is its
    length. *)
Inductive parsed : Type :=
| TooMany
| Args (mem : list ascii) (argv : list nat).

(** The [while (1)] loop of [runcmd], entered with [buf] at offset [p]
    and the arguments found so far. *)
Fixpoint parse_loop (fuel : nat) (mem : list ascii) (p : nat)
    (argv : list nat) : option parsed :=
  match fuel with
  | O => None
  | S k =>
      match gobble (S (length mem)) mem p with
      | None => None
      | Some (mem1, p1) =>
          if is_nul (peek mem1 p1) then Some (Args mem1 argv)
          else if Z.of_nat (length argv) =? MAXARGS - 1 then Some TooMany
          else
            match scan_arg (S (length mem1)) mem1 p1 with
            | None => None
            | Some p2 => parse_loop k mem1 p2 (argv ++ [p1])
            end
      end
  end.

(** Parsing of a line as [readline] returns it: the characters followed
    by the terminator. *)
Definition parse (line : list ascii) : option parsed :=
  let mem := line ++ [NUL] in
  parse_loop (S (length mem)) mem 0 [].

(** The token views: the C strings the entries of [argv] point to, read
    from the buffer as the loop left it. *)
Definition views (mem : list ascii) (argv : list nat) : list (list ascii) :=
  map (cstr mem) argv.

(** ** The machine the monitor runs on *)

(** Modelled from the spec: [struct Trapframe] (inc/trap.h) is not part
    of the sources at hand; the saved context is "a snapshot of CPU state
    (instruction pointer, stack/base pointers, flags, trap/vector
    number)".  All fields are [uint32_t]. *)
Record Trapframe : Type := mkTrapframe {
  tf_trapno : Z;
  tf_eip : Z;
  tf_eflags : Z;
  tf_esp : Z;
  tf_ebp : Z
}.

Definition set_eflags (t : Trapframe) (v : Z) : Trapframe :=
  {| tf_trapno := tf_trapno t; tf_eip := tf_eip t; tf_eflags := v;
     tf_esp := tf_esp t; tf_ebp := tf_ebp t |}.

(** An argument of [cprintf]. *)
Inductive arg : Type :=
| Num (n : Z)
| Str (s : string).

(** What the monitor does to the outside, in order. *)
Inductive event : Type :=
| Cprintf (fmt : string) (args : list arg)
| PgdirWalk (va : Z)
| Readline (prompt : string)
| PrintTrapframe (t : Trapframe).

(** The state a command can see and change.  [m_tf] stands for the
    argument [struct Trapframe *tf] together with the structure it points
    to: [None] is the NULL pointer, [Some t] a valid pointer to [t], which
    the commands update in place.  [m_out] is the trace so far, oldest
    event first. *)
Record machine : Type := mkMachine {
  m_tf : option Trapframe;
  m_out : list event
}.

(** How a piece of the monitor ends: it returns a value, or control
    leaves the monitor for good. *)
Inductive outcome (A : Type) : Type :=
| Value (a : A)
| Panicked (msg : string)   (* panic(msg) *)
| Resumed                   (* env_run(curenv): the environment runs *)
| NullDeref                 (* a field read or written through tf == NULL *)
| OutOfSteps                   (* the step budget of a loop is exhausted *)
| Blocked.                  (* readline waits for a line that never comes *)

Arguments Value {A} a.
Arguments Panicked {A} msg.
Arguments Resumed {A}.
Arguments NullDeref {A}.
Arguments OutOfSteps {A}.
Arguments Blocked {A}.

Definition M (A : Type) : Type := machine -> outcome A * machine.

Definition ret {A} (a : A) : M A := fun m => (Value a, m).

Definition bind {A B} (c : M A) (k : A -> M B) : M B :=
  fun m =>
    match c m with
    | (Value a, m') => k a m'
    | (Panicked msg, m') => (Panicked msg, m')
    | (Resumed, m') => (Resumed, m')
    | (NullDeref, m') => (NullDeref, m')
    | (OutOfSteps, m') => (OutOfSteps, m')
    | (Blocked, m') => (Blocked, m')
    end.

Declare Scope monitor_scope.
Delimit Scope monitor_scope with mon.
Notation "x <- c ;; k" := (bind c (fun x => k))
  (at level 61, c at next level, right associativity) : monitor_scope.
Notation "c ;; k" := (bind c (fun _ => k))
  (at level 61, right associativity) : monitor_scope.
Local Open Scope monitor_scope.

Definition emit (e : event) : M unit :=
  fun m => (Value tt, {| m_tf := m_tf m; m_out := m_out m ++ [e] |}).

Definition cprintf (fmt : string) (args : list arg) : M unit :=
  emit (Cprintf fmt args).

Definition panic {A} (msg : string) : M A := fun m => (Panicked msg, m).

(** [env_run(curenv)] does not return: it restores the saved context of
    the current environment, which on the trap path is the structure
    [tf] points to. *)
Definition env_run : M unit := fun m => (Resumed, m).

Definition out_of_steps {A} : M A := fun m => (OutOfSteps, m).

Definition blocked {A} : M A := fun m => (Blocked, m).

(** [tf->field], read. *)
Definition tf_get (field : Trapframe -> Z) : M Z :=
  fun m =>
    match m_tf m with
    | None => (NullDeref, m)
    | Some t => (Value (field t), m)
    end.

(** [tf->tf_eflags = v]. *)
Definition tf_put_eflags (v : Z) : M unit :=
  fun m =>
    match m_tf m with
    | None => (NullDeref, m)
    | Some t => (Value tt, {| m_tf := Some (set_eflags t v); m_out := m_out m |})
    end.

(** ** What the monitor takes from the rest of the kernel

    Constants, macros and functions the file uses and other files
    define. *)

Record Eipdebuginfo : Type := mkEipdebuginfo {
  eip_file : string;
  eip_line : Z;
  eip_fn_name : string;
  eip_fn_namelen : Z;
  eip_fn_addr : Z
}.

Class Kernel : Type := {
  PGSIZE : Z;                          (* inc/mmu.h *)
  PTE_P : Z;
  PTE_W : Z;
  PTE_U : Z;
  PTE_ADDR : Z -> Z;
  T_DEBUG : Z;                         (* inc/trap.h *)
  T_BRKPT : Z;
  KERNBASE : Z;                        (* inc/memlayout.h *)
  strtol : list ascii -> Z -> Z;       (* strtol(s, 0, base) *)
  pgdir_walk : Z -> option Z;          (* pgdir_walk(kern_pgdir, va, 0):
                                          NULL, or the entry it points to *)
  read_ebp : Z;                        (* inc/x86.h *)
  read_word : Z -> Z;                  (* *(uint32_t* ) addr *)
  debuginfo_eip : Z -> Eipdebuginfo;   (* kern/kdebug.c *)
  sym_start : Z;                       (* linker symbols *)
  sym_entry : Z;
  sym_etext : Z;
  sym_edata : Z;
  sym_end : Z
}.

(** Modelled from the spec: the macros ROUNDDOWN and ROUNDUP
    (inc/types.h) are not part of the sources at hand; the spec has
    "rounds both bounds down to page granularity" and "round up to
    1024-byte granularity".  The operands are [uint32_t]. *)
Definition ROUNDDOWN (a n : Z) : Z := a - a mod n.

Definition ROUNDUP (a n : Z) : Z :=
  ROUNDDOWN (to_uint32 (to_uint32 a + n - 1)) n.

Section Monitor.

Context {K : Kernel}.

(** The step budget handed to the loops of the handlers whose exit the
    code does not guarantee ([mon_backtrace], [mon_showmappings]). *)
Variable fuel : nat.

(** ** The handlers *)

(** The signature [int f(int argc, char **argv, struct Trapframe *tf)];
    [tf] is [m_tf] of the machine. *)
Definition handler : Type := Z -> list (list ascii) -> M Z.

(** [argv[i]] *)
Definition argv_at (argv : list (list ascii)) (i : nat) : list ascii :=
  nth i argv [].

(** The names and descriptions of [commands[]], in the order of the
    table. *)
Definition command_info : list (string * string) :=
  [ ("help", "Display this list of commands");
    ("kerninfo", "Display information about the kernel");
    ("backtrace", "Display information about kernel stack");
    ("showmappings", "Display information of all physical page mappings");
    ("continue", "Continues execution of the environment");
    ("c", "Continues execution of the environment");
    ("si", "Performs a single instruction of the current environment") ]%string.

Fixpoint help_loop (rows : list (string * string)) : M unit :=
  match rows with
  | [] => ret tt
  | (n, d) :: rows' => cprintf "%s - %s\n" [Str n; Str d] ;; help_loop rows'
  end.

Definition mon_help : handler := fun argc argv =>
  help_loop command_info ;;
  ret 0.

Definition mon_kerninfo : handler := fun argc argv =>
  cprintf "Special kernel symbols:\n" [] ;;
  cprintf "  _start                  %08x (phys)\n" [Num sym_start] ;;
  cprintf "  entry  %08x (virt)  %08x (phys)\n"
    [Num sym_entry; Num (to_uint32 (sym_entry - KERNBASE))] ;;
  cprintf "  etext  %08x (virt)  %08x (phys)\n"
    [Num sym_etext; Num (to_uint32 (sym_etext - KERNBASE))] ;;
  cprintf "  edata  %08x (virt)  %08x (phys)\n"
    [Num sym_edata; Num (to_uint32 (sym_edata - KERNBASE))] ;;
  cprintf "  end    %08x (virt)  %08x (phys)\n"
    [Num sym_end; Num (to_uint32 (sym_end - KERNBASE))] ;;
  cprintf "Kernel executable memory footprint: %dKB\n"
    [Num (Z.quot (to_int32 (ROUNDUP (sym_end - sym_entry) 1024)) 1024)] ;;
  ret 0.

(** [while (current_ebp != 0) { ... current_ebp = *(uint32_t* )current_ebp; }] *)
Fixpoint backtrace_loop (n : nat) (current_ebp : Z) : M unit :=
  if current_ebp =? 0 then ret tt
  else
    match n with
    | O => out_of_steps
    | S k =>
        let word (off : Z) := read_word (to_uint32 (current_ebp + off)) in
        let current_ra := word 4 in
        let info := debuginfo_eip current_ra in
        cprintf "  ebp %08x  eip %08x  args %08x %08x %08x %08x %08x\n"
          [Num current_ebp; Num current_ra;
           Num (word 8); Num (word 12); Num (word 16); Num (word 20);
           Num (word 24)] ;;
        cprintf "         %s:%d: %.*s+%d\n"
          [Str (eip_file info); Num (eip_line info);
           Num (eip_fn_namelen info); Str (eip_fn_name info);
           Num (to_uint32 (current_ra - eip_fn_addr info))] ;;
        backtrace_loop k (read_word current_ebp)
    end.

Definition mon_backtrace : handler := fun argc argv =>
  cprintf "Stack backtrace:\n" [] ;;
  backtrace_loop fuel read_ebp ;;
  ret 0.

(** The body of the [for] loop of [mon_showmappings] for one page. *)
Definition show_page (page_addr : Z) : M unit :=
  emit (PgdirWalk page_addr) ;;
  match pgdir_walk page_addr with
  | None =>
      cprintf "VA %08x is not mapped to physical address\n" [Num page_addr]
  | Some pte =>
      cprintf
        "VA %08x is mapped to PA %08x permissions: PTE_P %x PTE_W %x PTE_U %x\n"
        [Num page_addr; Num (PTE_ADDR pte); Num (Z.land pte PTE_P);
         Num (Z.land pte PTE_W); Num (Z.land pte PTE_U)]
  end.

(** [for ( ; page_addr < end_addr ; page_addr += PGSIZE ) ...], with the
    addition in [uint32_t]. *)
Fixpoint showmappings_loop (n : nat) (page_addr end_addr : Z) : M unit :=
  if page_addr <? end_addr then
    match n with
    | O => out_of_steps
    | S k =>
        show_page page_addr ;;
        showmappings_loop k (to_uint32 (page_addr + PGSIZE)) end_addr
    end
  else ret tt.

Definition mon_showmappings : handler := fun argc argv =>
  if negb (argc =? 3) then
    cprintf "Usage: showmappings <start_addr> <end_addr>\n" [] ;;
    ret (-1)
  else
    let start_addr := to_uint32 (strtol (argv_at argv 1) 16) in
    let end_addr := to_uint32 (strtol (argv_at argv 2) 16) in
    if end_addr <? start_addr then
      cprintf "start_addr cannot exceed end_addr\n" [] ;;
      ret (-1)
    else
      let start_page := ROUNDDOWN start_addr PGSIZE in
      let end_page := ROUNDDOWN end_addr PGSIZE in   (* never used *)
      let page_addr := start_page in
      showmappings_loop fuel page_addr end_addr ;;
      ret 0.

(** [tf->tf_eflags & ~(1 << 8)]: the mask is the [int] -257, converted
    to [uint32_t] for the conjunction. *)
Definition clear_tf_bit (eflags : Z) : Z :=
  Z.land eflags (to_uint32 (Z.lnot (Z.shiftl 1 8))).

(** [tf->tf_eflags | (0x1 << 8)] *)
Definition set_tf_bit (eflags : Z) : Z :=
  to_uint32 (Z.lor eflags (Z.shiftl 1 8)).

Definition mon_continue : handler := fun argc argv =>
  if negb (argc =? 1) then
    cprintf "Usage: continue\n" [] ;;
    ret (-1)
  else
    trapno <- tf_get tf_trapno ;;
    (if negb (trapno =? T_BRKPT) && negb (trapno =? T_DEBUG)
     then panic "mon_continue: unexpected trap!\n"
     else ret tt) ;;
    trapno <- tf_get tf_trapno ;;
    (if trapno =? T_DEBUG
     then eflags <- tf_get tf_eflags ;; tf_put_eflags (clear_tf_bit eflags)
     else ret tt) ;;
    env_run ;;
    ret 0.

Definition mon_si : handler := fun argc argv =>
  if negb (argc =? 1) then
    cprintf "Usage: si\n" [] ;;
    ret (-1)
  else
    trapno <- tf_get tf_trapno ;;
    (if negb (trapno =? T_BRKPT) && negb (trapno =? T_DEBUG)
     then panic "mon_si: unexpected trap!\n"
     else ret tt) ;;
    eflags <- tf_get tf_eflags ;;
    tf_put_eflags (set_tf_bit eflags) ;;
    env_run ;;
    ret 0.

(** ** The command table and the interpreter *)

Record Command : Type := mkCommand {
  name : string;
  desc : string;
  func : handler
}.

Definition commands : list Command :=
  [ mkCommand "help" "Display this list of commands" mon_help;
    mkCommand "kerninfo" "Display information about the kernel" mon_kerninfo;
    mkCommand "backtrace" "Display information about kernel stack"
      mon_backtrace;
    mkCommand "showmappings"
      "Display information of all physical page mappings" mon_showmappings;
    mkCommand "continue" "Continues execution of the environment"
      mon_continue;
    mkCommand "c" "Continues execution of the environment" mon_continue;
    mkCommand "si" "Performs a single instruction of the current environment"
      mon_si ]%string.

(** [strcmp(a, b) == 0] *)
Definition streq (a : list ascii) (b : string) : bool :=
  String.eqb (string_of_list_ascii a) b.

(** [for (i = 0; i < NCOMMANDS; i++) if (strcmp(argv[0], commands[i].name) == 0) ...]:
    the first entry whose name is [argv[0]]. *)
Fixpoint find_command (cmds : list Command) (arg0 : list ascii)
  : option Command :=
  match cmds with
  | [] => None
  | c :: cmds' => if streq arg0 (name c) then Some c else find_command cmds' arg0
  end.

(** The first half of [runcmd], "Parse the command buffer into
    whitespace-separated arguments": the token views, or [None] after
    the message and the early [return 0]. *)
Definition tokenize (line : list ascii) : M (option (list (list ascii))) :=
  match parse line with
  | None => out_of_steps
  | Some TooMany =>
      cprintf "Too many arguments (max %d)\n" [Num MAXARGS] ;;
      ret None
  | Some (Args mem argv) => ret (Some (views mem argv))
  end.

(** The second half, "Lookup and invoke the command"; [argc] is the
    number of views. *)
Definition dispatch (cmds : list Command) (args : list (list ascii)) : M Z :=
  let argc := Z.of_nat (length args) in
  if argc =? 0 then ret 0
  else
    match find_command cmds (argv_at args 0) with
    | Some c => func c argc args
    | None =>
        cprintf "Unknown command '%s'\n"
          [Str (string_of_list_ascii (argv_at args 0))] ;;
        ret 0
    end.

(** [runcmd], over a command table [cmds]; the table of the program is
    [commands]. *)
Definition runcmd_in (cmds : list Command) (line : list ascii) : M Z :=
  r <- tokenize line ;;
  match r with
  | None => ret 0
  | Some args => dispatch cmds args
  end.

Definition runcmd : list ascii -> M Z := runcmd_in commands.

(** Whether the loop of [monitor] goes on after a line. *)
Inductive ctl : Type := Continue | Break.

(** One turn of the loop of [monitor]:
    [buf = readline("K> "); if (buf != NULL) if (runcmd(buf, tf) < 0) break;]
    where [buf] is what [readline] hands back. *)
Definition monitor_turn (cmds : list Command) (buf : option (list ascii))
  : M ctl :=
  emit (Readline "K> ") ;;
  match buf with
  | None => ret Continue
  | Some line =>
      r <- runcmd_in cmds line ;;
      ret (if r <? 0 then Break else Continue)
  end.

(** The [while (1)] loop of [monitor] against the lines the operator
    types; when they are used up, [readline] waits. *)
Fixpoint monitor_loop (cmds : list Command) (input : list (option (list ascii)))
  : M unit :=
  match input with
  | [] => emit (Readline "K> ") ;; blocked
  | buf :: input' =>
      c <- monitor_turn cmds buf ;;
      match c with
      | Break => ret tt
      | Continue => monitor_loop cmds input'
      end
  end.

Definition monitor_in (cmds : list Command) (input : list (option (list ascii)))
  : M unit :=
  cprintf "Welcome to the JOS kernel monitor!\n" [] ;;
  cprintf "Type 'help' for a list of commands.\n" [] ;;
  (fun m =>
     match m_tf m with
     | Some t => emit (PrintTrapframe t) m
     | None => ret tt m
     end) ;;
  monitor_loop cmds input.

Definition monitor : list (option (list ascii)) -> M unit := monitor_in commands.

End Monitor.

(** ** A kernel to run the monitor on *)

Definition hex_digit (c : ascii) : option Z :=
  let n := Z.of_N (N_of_ascii c) in
  if (48 <=? n) && (n <=? 57) then Some (n - 48)
  else if (97 <=? n) && (n <=? 102) then Some (n - 87)
  else if (65 <=? n) && (n <=? 70) then Some (n - 55)
  else None.

Fixpoint hex_digits (acc : Z) (s : list ascii) : Z :=
  match s with
  | [] => acc
  | c :: s' =>
      match hex_digit c with
      | Some d => hex_digits (acc * 16 + d) s'
      | None => acc
      end
  end.

(** Modelled from the spec: [strtol] (lib/string.c) is not part of the
    sources at hand; the arguments of showmappings are "2 hex addresses".
    The digits of a base-16 numeral, after an optional 0x, up to the
    first character that is not one. *)
Definition hex_strtol (s : list ascii) (base : Z) : Z :=
  match s with
  | "0"%char :: "x"%char :: s' => hex_digits 0 s'
  | _ => hex_digits 0 s
  end.

(** The constants of JOS on x86, [hex_strtol], a page directory that maps
    the first 4MB onto themselves (present, writable), and an empty call
    stack. *)
Definition jos : Kernel := {|
  PGSIZE := 4096;
  PTE_P := 1;
  PTE_W := 2;
  PTE_U := 4;
  PTE_ADDR := fun pte => Z.land pte (to_uint32 (Z.lnot 4095));
  T_DEBUG := 1;
  T_BRKPT := 3;
  KERNBASE := 4026531840;
  strtol := hex_strtol;
  pgdir_walk := fun va => if va <? 4194304 then Some (Z.lor (ROUNDDOWN va 4096) 3) else None;
  read_ebp := 0;
  read_word := fun _ => 0;
  debuginfo_eip := fun _ => mkEipdebuginfo "<unknown>" 0 "<unknown>" 9 0;
  sym_start := 1048588;
  sym_entry := 4027580428;
  sym_etext := 4027600000;
  sym_edata := 4027700000;
  sym_end := 4027800000
|}.

(** A machine with nothing printed yet. *)
Definition boot (tf : option Trapframe) : machine :=
  {| m_tf := tf; m_out := [] |}.

(** The characters of a string literal. *)
Definition chars (s : string) : list ascii := list_ascii_of_string s.

(** ** Lines and their tokens, in the words of the specification

    The definitions of this part do not come from the code: they say
    what "a line containing N whitespace-separated tokens" is, so that
    the tokenizer can be compared with it. *)

(** A character of the whitespace set (tab, carriage return, newline,
    space). *)
Definition is_ws (c : ascii) : bool := existsb (Ascii.eqb c) WHITESPACE.

(** A line as an operator can type it: no character 0 inside. *)
Definition well_formed (line : list ascii) : Prop :=
  Forall (fun c => is_nul c = false) line.

(** The whitespace-separated tokens of a line, left to right: a
    character that is not whitespace starts a token when it is the last
    of the line or whitespace follows, and extends the token to its
    right otherwise. *)
Fixpoint words (line : list ascii) : list (list ascii) :=
  match line with
  | [] => []
  | c :: line' =>
      if is_ws c then words line'
      else
        match line' with
        | [] => [[c]]
        | d :: _ =>
            if is_ws d then [c] :: words line'
            else
              match words line' with
              | t :: ts => (c :: t) :: ts
              | [] => [[c]]
              end
        end
  end.

Definition blank (s : list ascii) : Prop :=
  Forall (fun c => is_ws c = true) s.

Definition token (t : list ascii) : Prop :=
  t <> [] /\ Forall (fun c => is_ws c = false /\ is_nul c = false) t.

(** Nothing, or something that starts with whitespace. *)
Definition delimited (rest : list ascii) : Prop :=
  match rest with
  | [] => True
  | c :: _ => is_ws c = true
  end.

(** [splits line toks]: [line] is whitespace, then the first token, then
    a delimited rest that splits into the other tokens. *)
Inductive splits : list ascii -> list (list ascii) -> Prop :=
| splits_blank (s : list ascii) :
    blank s -> splits s []
| splits_token (s t rest : list ascii) (toks : list (list ascii)) :
    blank s -> token t -> delimited rest -> splits rest toks ->
    splits (s ++ t ++ rest) (t :: toks).

(** What the gobbling loop makes of a character. *)
Definition zero_ws (c : ascii) : ascii := if is_ws c then NUL else c.

(** The test of the gobbling loop, and of the loop that scans past an
    argument. *)
Definition gobbles (c : ascii) : bool :=
  negb (is_nul c) && strchr WHITESPACE c.

Definition scans (c : ascii) : bool :=
  negb (is_nul c) && negb (strchr WHITESPACE c).

(** The machine once the prompt of [readline] is out. *)
Definition prompted (m : machine) : machine :=
  {| m_tf := m_tf m; m_out := m_out m ++ [Readline "K> "] |}.

(** The machine once a message is printed. *)
Definition printed (fmt : string) (args : list arg) (m : machine) : machine :=
  {| m_tf := m_tf m; m_out := m_out m ++ [Cprintf fmt args] |}.

(** The machine once more events are out. *)
Definition traced (es : list event) (m : machine) : machine :=
  {| m_tf := m_tf m; m_out := m_out m ++ es |}.

(** What [show_page] adds to the trace for one page: the lookup and the
    line about it. *)
Definition page_events {K : Kernel} (va : Z) : list event :=
  [ PgdirWalk va;
    match pgdir_walk va with
    | None =>
        Cprintf "VA %08x is not mapped to physical address\n" [Num va]
    | Some pte =>
        Cprintf
          "VA %08x is mapped to PA %08x permissions: PTE_P %x PTE_W %x PTE_U %x\n"
          [Num va; Num (PTE_ADDR pte); Num (Z.land pte PTE_P);
           Num (Z.land pte PTE_W); Num (Z.land pte PTE_U)]
    end ].

(** The addresses of [n] pages in a row, the first at [p]. *)
Fixpoint pages {K : Kernel} (n : nat) (p : Z) : list Z :=
  match n with
  | O => []
  | S k => p :: pages k (p + PGSIZE)
  end.

(** A line of [n] one-letter tokens. *)
Fixpoint letters (n : nat) : list ascii :=
  match n with
  | O => []
  | S k => "a"%char :: " "%char :: letters k
  end.

(** ** Further vocabulary for the properties of the handlers *)

(** The two lines [mon_backtrace] prints for the frame at [ebp]. *)
Definition frame_events {K : Kernel} (ebp : Z) : list event :=
  let word (off : Z) := read_word (to_uint32 (ebp + off)) in
  let ra := word 4 in
  let info := debuginfo_eip ra in
  [ Cprintf "  ebp %08x  eip %08x  args %08x %08x %08x %08x %08x\n"
      [Num ebp; Num ra; Num (word 8); Num (word 12); Num (word 16);
       Num (word 20); Num (word 24)];
    Cprintf "         %s:%d: %.*s+%d\n"
      [Str (eip_file info); Num (eip_line info); Num (eip_fn_namelen info);
       Str (eip_fn_name info); Num (to_uint32 (ra - eip_fn_addr info))] ].

(** [frame_chain ebp frames]: starting at [ebp] and following the saved
    frame pointers (the word at offset 0 of a frame), memory holds the
    frames at the addresses [frames], none of them 0, and then the
    frame pointer 0. *)
Fixpoint frame_chain {K : Kernel} (ebp : Z) (frames : list Z) : Prop :=
  match frames with
  | [] => ebp = 0
  | e :: frames' => e = ebp /\ ebp <> 0 /\ frame_chain (read_word ebp) frames'
  end.

(** The line [mon_help] prints for an entry of the table. *)
Definition help_line (c : Command) : event :=
  Cprintf "%s - %s\n" [Str (name c); Str (desc c)].

(** A computation that only adds to the trace, and leaves the saved
    context as it is unless it ends by resuming the environment, in
    which case it has changed at most the saved flags. *)
Definition context_kept {A : Type} (c : M A) : Prop :=
  forall m : machine,
    (exists es, m_out (snd (c m)) = m_out m ++ es)
    /\ (fst (c m) <> Resumed -> m_tf (snd (c m)) = m_tf m)
    /\ (fst (c m) = Resumed ->
        exists t v, m_tf m = Some t /\ m_tf (snd (c m)) = Some (set_eflags t v)).

(** What [readline] hands back on a turn of the loop that runs nothing:
    NULL, or a line without tokens. *)
Definition idle (buf : option (list ascii)) : Prop :=
  match buf with
  | None => True
  | Some line => well_formed line /\ words line = []
  end.

(** The banner of [monitor]: the two greeting lines, and the trap frame
    when there is one. *)
Definition banner (tf : option Trapframe) : list event :=
  [ Cprintf "Welcome to the JOS kernel monitor!\n" [];
    Cprintf "Type 'help' for a list of commands.\n" [] ]
  ++ match tf with
     | Some t => [PrintTrapframe t]
     | None => []
     end.

(** The kernel [jos] with a call stack: [ebp] in the frame pointer
    register and [mem] for the words of memory. *)
Definition jos_with_stack (ebp : Z) (mem : Z -> Z) : Kernel := {|
  PGSIZE := @PGSIZE jos;
  PTE_P := @PTE_P jos;
  PTE_W := @PTE_W jos;
  PTE_U := @PTE_U jos;
  PTE_ADDR := @PTE_ADDR jos;
  T_DEBUG := @T_DEBUG jos;
  T_BRKPT := @T_BRKPT jos;
  KERNBASE := @KERNBASE jos;
  strtol := @strtol jos;
  pgdir_walk := @pgdir_walk jos;
  read_ebp := ebp;
  read_word := mem;
  debuginfo_eip := @debuginfo_eip jos;
  sym_start := @sym_start jos;
  sym_entry := @sym_entry jos;
  sym_etext := @sym_etext jos;
  sym_edata := @sym_edata jos;
  sym_end := @sym_end jos
|}.

(** A stack of two frames, at 0x1000 and 0x2000, the second the
    outermost. *)
Definition two_frames (addr : Z) : Z :=
  if addr =? 4096 then 8192 else 0.

(** * Properties *)

(** ** The buffer *)

Lemma peek_app (pre rest : list ascii) :
  peek (pre ++ rest) (length pre) = hd NUL rest.
Proof.
  unfold peek. rewrite app_nth2 by lia.
  replace (length pre - length pre)%nat with 0%nat by lia.
  destruct rest; reflexivity.
Qed.

Lemma poke_app (pre rest : list ascii) (x c : ascii) :
  poke (pre ++ x :: rest) (length pre) c = pre ++ c :: rest.
Proof.
  induction pre as [|y pre IH]; simpl; [reflexivity|].
  now rewrite IH.
Qed.

Lemma length_poke (mem : list ascii) (p : nat) (c : ascii) :
  length (poke mem p c) = length mem.
Proof.
  revert p. induction mem as [|x mem IH]; intros [|p]; simpl; auto.
Qed.

Lemma peek_outside (mem : list ascii) (p : nat) :
  (length mem <= p)%nat -> peek mem p = NUL.
Proof. intros Hp. unfold peek. now apply nth_overflow. Qed.

Lemma peek_inside (mem : list ascii) (p : nat) :
  is_nul (peek mem p) = false -> (p < length mem)%nat.
Proof.
  intros Hc. destruct (Nat.lt_ge_cases p (length mem)) as [Hlt|Hge]; auto.
  rewrite (peek_outside _ _ Hge) in Hc. discriminate.
Qed.

(** ** Whitespace *)

Lemma strchr_WHITESPACE (c : ascii) :
  strchr WHITESPACE c = is_ws c || is_nul c.
Proof. reflexivity. Qed.

Lemma ws_not_nul (c : ascii) : is_ws c = true -> is_nul c = false.
Proof.
  unfold is_ws, is_nul, WHITESPACE. simpl. intros Hc.
  destruct (Ascii.eqb c NUL) eqn:E; [|reflexivity].
  apply Ascii.eqb_eq in E. subst c. discriminate.
Qed.

Lemma gobbles_ws (c : ascii) : is_ws c = true -> gobbles c = true.
Proof.
  intros Hc. unfold gobbles. rewrite strchr_WHITESPACE, Hc, (ws_not_nul _ Hc).
  reflexivity.
Qed.

Lemma gobbles_not_ws (c : ascii) : is_ws c = false -> gobbles c = false.
Proof.
  intros Hc. unfold gobbles. rewrite strchr_WHITESPACE, Hc.
  destruct (is_nul c); reflexivity.
Qed.

Lemma scans_char (c : ascii) :
  is_ws c = false -> is_nul c = false -> scans c = true.
Proof.
  intros Hw Hn. unfold scans. rewrite strchr_WHITESPACE, Hw, Hn. reflexivity.
Qed.

Lemma scans_ws (c : ascii) : is_ws c = true -> scans c = false.
Proof.
  intros Hc. unfold scans. rewrite strchr_WHITESPACE, Hc.
  destruct (is_nul c); reflexivity.
Qed.

Lemma scans_NUL : scans NUL = false.
Proof. reflexivity. Qed.

Lemma gobbles_NUL : gobbles NUL = false.
Proof. reflexivity. Qed.

(** ** The two inner loops *)

Lemma gobble_blank (s : list ascii) :
  blank s ->
  forall (pre rest : list ascii) (fuel : nat),
    gobbles (hd NUL rest) = false ->
    (length s < fuel)%nat ->
    gobble fuel (pre ++ s ++ rest) (length pre)
    = Some (pre ++ map zero_ws s ++ rest, (length pre + length s)%nat).
Proof.
  induction 1 as [|c s Hc Hs IH]; intros pre rest fuel Hstop Hfuel.
  - destruct fuel as [|k]; [simpl in Hfuel; lia|].
    simpl. rewrite peek_app. fold (gobbles (hd NUL rest)). rewrite Hstop.
    now rewrite Nat.add_0_r.
  - destruct fuel as [|k]; [simpl in Hfuel; lia|].
    simpl in Hfuel. cbn [gobble app].
    rewrite peek_app. cbn [hd]. fold (gobbles c). rewrite (gobbles_ws _ Hc).
    rewrite poke_app.
    replace (pre ++ NUL :: s ++ rest) with ((pre ++ [NUL]) ++ s ++ rest)
      by now rewrite <- app_assoc.
    replace (S (length pre)) with (length (pre ++ [NUL]))
      by (rewrite length_app; simpl; lia).
    rewrite IH by (auto; lia).
    rewrite length_app. cbn [map length]. unfold zero_ws at 2. rewrite Hc.
    rewrite <- app_assoc. cbn [app]. f_equal. f_equal. lia.
Qed.

Lemma scan_arg_token (t : list ascii) :
  Forall (fun c => is_ws c = false /\ is_nul c = false) t ->
  forall (pre rest : list ascii) (fuel : nat),
    scans (hd NUL rest) = false ->
    (length t < fuel)%nat ->
    scan_arg fuel (pre ++ t ++ rest) (length pre)
    = Some (length pre + length t)%nat.
Proof.
  induction 1 as [|c t [Hw Hn] Ht IH]; intros pre rest fuel Hstop Hfuel.
  - destruct fuel as [|k]; [simpl in Hfuel; lia|].
    simpl. rewrite peek_app. fold (scans (hd NUL rest)). rewrite Hstop.
    now rewrite Nat.add_0_r.
  - destruct fuel as [|k]; [simpl in Hfuel; lia|].
    simpl in Hfuel. cbn [scan_arg app].
    rewrite peek_app. cbn [hd]. fold (scans c). rewrite (scans_char _ Hw Hn).
    replace (pre ++ c :: t ++ rest) with ((pre ++ [c]) ++ t ++ rest)
      by now rewrite <- app_assoc.
    replace (S (length pre)) with (length (pre ++ [c]))
      by (rewrite length_app; simpl; lia).
    rewrite IH by (auto; lia).
    rewrite length_app. cbn [length]. f_equal. lia.
Qed.

(** ** Reading a token back *)

Lemma cstr_of_token (t rest : list ascii) :
  Forall (fun c => is_ws c = false /\ is_nul c = false) t ->
  cstr_of (t ++ NUL :: rest) = t.
Proof.
  induction 1 as [|c t [_ Hn] _ IH]; simpl; [reflexivity|].
  rewrite Hn. now rewrite IH.
Qed.

Lemma cstr_app (pre rest : list ascii) :
  cstr (pre ++ rest) (length pre) = cstr_of rest.
Proof.
  unfold cstr. rewrite skipn_app, skipn_all, Nat.sub_diag. reflexivity.
Qed.

Lemma zero_ws_blank (s : list ascii) :
  blank s -> map zero_ws s = repeat NUL (length s).
Proof.
  induction 1 as [|c s Hc _ IH]; simpl; [reflexivity|].
  unfold zero_ws at 1. now rewrite Hc, IH.
Qed.

Lemma zero_ws_token (t : list ascii) :
  Forall (fun c => is_ws c = false /\ is_nul c = false) t ->
  map zero_ws t = t.
Proof.
  induction 1 as [|c t [Hw _] _ IH]; simpl; [reflexivity|].
  unfold zero_ws at 1. now rewrite Hw, IH.
Qed.

(** Behind a token the buffer holds a terminator once the line is
    parsed: the one of the line, or the one written over the whitespace
    that follows. *)
Lemma zero_ws_delimited (rest : list ascii) :
  delimited rest ->
  exists r, map zero_ws rest ++ [NUL] = NUL :: r.
Proof.
  destruct rest as [|c rest]; simpl; intros Hd.
  - now exists [].
  - unfold zero_ws at 1. rewrite Hd. eauto.
Qed.

Lemma delimited_scans (rest : list ascii) :
  delimited rest -> scans (hd NUL (rest ++ [NUL])) = false.
Proof.
  destruct rest as [|c rest]; simpl; intros Hd.
  - reflexivity.
  - now apply scans_ws.
Qed.

Lemma token_gobbles (t rest : list ascii) :
  token t -> gobbles (hd NUL (t ++ rest)) = false.
Proof.
  intros [Hne Ht]. destruct t as [|c t]; [congruence|].
  inversion Ht as [|? ? [Hw _] _]; subst. simpl. now apply gobbles_not_ws.
Qed.

Lemma token_peek (t rest : list ascii) :
  token t -> is_nul (hd NUL (t ++ rest)) = false.
Proof.
  intros [Hne Ht]. destruct t as [|c t]; [congruence|].
  inversion Ht as [|? ? [_ Hn] _]; subst. exact Hn.
Qed.

Lemma length_token (t : list ascii) : token t -> (0 < length t)%nat.
Proof. intros [Hne _]. destruct t; [congruence|simpl; lia]. Qed.

Lemma splits_length (line : list ascii) (toks : list (list ascii)) :
  splits line toks -> (length toks <= length line)%nat.
Proof.
  induction 1 as [s _|s t rest toks _ Ht _ _ IH]; simpl; [lia|].
  apply length_token in Ht. rewrite !length_app. lia.
Qed.

(** ** The parsing loop on a line that splits into tokens *)

(** One turn of the loop over whitespace and one token. *)
Lemma parse_loop_token (s t rest pre : list ascii) (argv : list nat) (k : nat) :
  blank s -> token t -> delimited rest ->
  parse_loop (S k) (pre ++ (s ++ t ++ rest) ++ [NUL]) (length pre) argv
  = if Z.of_nat (length argv) =? MAXARGS - 1 then Some TooMany
    else parse_loop k ((pre ++ map zero_ws s ++ t) ++ rest ++ [NUL])
           (length (pre ++ map zero_ws s ++ t))
           (argv ++ [(length pre + length s)%nat]).
Proof.
  intros Hs Ht Hd. cbn [parse_loop].
  replace (pre ++ (s ++ t ++ rest) ++ [NUL])
    with (pre ++ s ++ (t ++ rest ++ [NUL]))
    by now rewrite <- !app_assoc.
  rewrite (gobble_blank s Hs pre (t ++ rest ++ [NUL]))
    by (first [now apply token_gobbles | rewrite !length_app; lia]).
  replace (pre ++ map zero_ws s ++ t ++ rest ++ [NUL])
    with ((pre ++ map zero_ws s) ++ t ++ rest ++ [NUL])
    by now rewrite <- !app_assoc.
  replace (length pre + length s)%nat with (length (pre ++ map zero_ws s))
    by now rewrite length_app, length_map.
  rewrite peek_app, (token_peek t _ Ht).
  destruct (Z.of_nat (length argv) =? MAXARGS - 1); [reflexivity|].
  rewrite (scan_arg_token t (proj2 Ht) (pre ++ map zero_ws s) (rest ++ [NUL]))
    by (first [now apply delimited_scans | rewrite !length_app, ?length_map; lia]).
  f_equal.
  - now rewrite <- !app_assoc.
  - rewrite !length_app. lia.
Qed.

(** The loop at the end of the line. *)
Lemma parse_loop_blank (s pre : list ascii) (argv : list nat) (k : nat) :
  blank s ->
  parse_loop (S k) (pre ++ s ++ [NUL]) (length pre) argv
  = Some (Args (pre ++ map zero_ws s ++ [NUL]) argv).
Proof.
  intros Hs. cbn [parse_loop].
  rewrite (gobble_blank s Hs pre [NUL]) by (first [reflexivity | rewrite !length_app; lia]).
  replace (pre ++ map zero_ws s ++ [NUL])
    with ((pre ++ map zero_ws s) ++ [NUL])
    by now rewrite <- !app_assoc.
  replace (length pre + length s)%nat with (length (pre ++ map zero_ws s))
    by now rewrite length_app, length_map.
  rewrite peek_app. reflexivity.
Qed.

Lemma parse_loop_splits (rest : list ascii) (toks : list (list ascii)) :
  splits rest toks ->
  forall (pre : list ascii) (argv : list nat) (fuel : nat),
    (length argv + length toks <= 15)%nat ->
    (length toks < fuel)%nat ->
    exists offs : list nat,
      parse_loop fuel (pre ++ rest ++ [NUL]) (length pre) argv
      = Some (Args (pre ++ map zero_ws rest ++ [NUL]) (argv ++ offs))
      /\ forall pre' : list ascii,
           length pre' = length pre ->
           views (pre' ++ map zero_ws rest ++ [NUL]) offs = toks.
Proof.
  induction 1 as [s Hs|s t rest toks Hs Ht Hd Hsp IH];
    intros pre argv fuel Hargc Hfuel.
  - destruct fuel as [|k]; [simpl in Hfuel; lia|].
    exists []. rewrite (parse_loop_blank s pre argv k Hs), app_nil_r.
    split; [reflexivity|]. intros; reflexivity.
  - destruct fuel as [|k]; [simpl in Hfuel; lia|].
    simpl in Hargc, Hfuel.
    rewrite (parse_loop_token s t rest pre argv k Hs Ht Hd).
    replace (Z.of_nat (length argv) =? MAXARGS - 1) with false
      by (symmetry; apply Z.eqb_neq; unfold MAXARGS; lia).
    destruct (IH (pre ++ map zero_ws s ++ t) (argv ++ [(length pre + length s)%nat]) k)
      as (offs & Hrun & Hviews).
    { rewrite length_app. simpl. lia. }
    { lia. }
    exists ((length pre + length s)%nat :: offs).
    rewrite Hrun. split.
    + f_equal. f_equal.
      * rewrite !map_app, (zero_ws_token t (proj2 Ht)).
        now rewrite <- !app_assoc.
      * now rewrite <- app_assoc.
    + intros pre' Hlen. unfold views. cbn [map]. f_equal.
      * rewrite !map_app, (zero_ws_token t (proj2 Ht)).
        destruct (zero_ws_delimited rest Hd) as (r & Hr).
        replace (pre' ++ (map zero_ws s ++ t ++ map zero_ws rest) ++ [NUL])
          with ((pre' ++ map zero_ws s) ++ t ++ (map zero_ws rest ++ [NUL]))
          by now rewrite <- !app_assoc.
        replace (length pre + length s)%nat
          with (length (pre' ++ map zero_ws s))
          by (rewrite length_app, length_map; lia).
        rewrite cstr_app, Hr. apply cstr_of_token, Ht.
      * specialize (Hviews (pre' ++ map zero_ws s ++ t)).
        unfold views in Hviews.
        rewrite !map_app, (zero_ws_token t (proj2 Ht)).
        replace (pre' ++ (map zero_ws s ++ t ++ map zero_ws rest) ++ [NUL])
          with ((pre' ++ map zero_ws s ++ t) ++ map zero_ws rest ++ [NUL])
          by now rewrite <- !app_assoc.
        apply Hviews. rewrite !length_app, !length_map. lia.
Qed.

Lemma parse_loop_overflow (rest : list ascii) (toks : list (list ascii)) :
  splits rest toks ->
  forall (pre : list ascii) (argv : list nat) (fuel : nat),
    (length argv <= 15)%nat ->
    (15 < length argv + length toks)%nat ->
    (length toks < fuel)%nat ->
    parse_loop fuel (pre ++ rest ++ [NUL]) (length pre) argv = Some TooMany.
Proof.
  induction 1 as [s Hs|s t rest toks Hs Ht Hd Hsp IH];
    intros pre argv fuel Hargc Hmany Hfuel.
  - simpl in Hmany. lia.
  - destruct fuel as [|k]; [simpl in Hfuel; lia|].
    simpl in Hmany, Hfuel.
    rewrite (parse_loop_token s t rest pre argv k Hs Ht Hd).
    destruct (Z.of_nat (length argv) =? MAXARGS - 1) eqn:E; [reflexivity|].
    apply Z.eqb_neq in E. unfold MAXARGS in E.
    apply IH.
    + rewrite length_app. simpl. lia.
    + rewrite length_app. simpl. lia.
    + lia.
Qed.

(** ** The words of a line, on examples *)

Example words_of_a_command :
  words (chars "  showmappings 0x1000   0x3000 ")
  = [chars "showmappings"; chars "0x1000"; chars "0x3000"].
Proof. reflexivity. Qed.

Example words_all_separators :
  words (" "%char :: "009"%char :: chars "si"
           ++ "013"%char :: "010"%char :: chars "x y")
  = [chars "si"; chars "x"; chars "y"].
Proof. reflexivity. Qed.

Example words_of_blank_line : words (chars "   ") = [].
Proof. reflexivity. Qed.

Example parse_in_place :
  parse (chars " c  x")
  = Some (Args [NUL; "c"%char; NUL; NUL; "x"%char; NUL] [1%nat; 4%nat]).
Proof. reflexivity. Qed.

(** ** Every well-formed line splits into its words *)

Lemma splits_ws_cons (c : ascii) (line : list ascii) (toks : list (list ascii)) :
  is_ws c = true -> splits line toks -> splits (c :: line) toks.
Proof.
  intros Hc Hsp. destruct Hsp as [s Hs|s t rest toks Hs Ht Hd Hsp].
  - apply splits_blank. now constructor.
  - apply (splits_token (c :: s) t rest toks); auto. now constructor.
Qed.

Lemma splits_head_token (d : ascii) (line : list ascii)
    (toks : list (list ascii)) :
  is_ws d = false -> splits (d :: line) toks ->
  exists t rest toks',
    d :: line = t ++ rest /\ toks = t :: toks' /\ token t /\
    delimited rest /\ splits rest toks'.
Proof.
  intros Hd Hsp. inversion Hsp as [s Hs Heq|s t rest toks' Hs Ht Hdl Hsp' Heq].
  - subst s. inversion Hs; congruence.
  - destruct s as [|c s].
    + exists t, rest, toks'. simpl in Heq. rewrite Heq. auto.
    + simpl in Heq. injection Heq as -> _. inversion Hs; congruence.
Qed.

Lemma splits_words (line : list ascii) :
  well_formed line -> splits line (words line).
Proof.
  induction 1 as [|c line Hc Hwf IH].
  - apply splits_blank. constructor.
  - cbn [words]. destruct (is_ws c) eqn:Ec.
    + now apply splits_ws_cons.
    + assert (Hone : token [c]).
      { split; [discriminate|]. constructor; auto. }
      destruct line as [|d line].
      * apply (splits_token [] [c] [] []);
          [constructor | exact Hone | exact I | apply splits_blank; constructor].
      * destruct (is_ws d) eqn:Ed.
        -- apply (splits_token [] [c] (d :: line));
             [constructor | exact Hone | exact Ed | exact IH].
        -- destruct (splits_head_token d line _ Ed IH)
             as (t & rest & toks' & Hline & Htoks & Ht & Hdl & Hsp).
           rewrite Htoks, Hline.
           apply (splits_token [] (c :: t) rest toks');
             [constructor | | exact Hdl | exact Hsp].
           split; [discriminate|]. constructor; [auto|apply Ht].
Qed.

Lemma splits_nonempty (line : list ascii) (toks : list (list ascii)) :
  splits line toks -> Forall (fun t => t <> []) toks.
Proof.
  induction 1 as [|s t rest toks _ Ht _ _ IH]; constructor; auto.
  apply Ht.
Qed.

Lemma words_nonempty (line : list ascii) :
  well_formed line -> Forall (fun t => t <> []) (words line).
Proof. intros Hwf. exact (splits_nonempty _ _ (splits_words line Hwf)). Qed.

(** ** The parsing loops never run out of steps *)

Lemma gobble_total (fuel : nat) :
  forall (mem : list ascii) (p : nat),
    (length mem - p < fuel)%nat ->
    exists mem' p',
      gobble fuel mem p = Some (mem', p') /\ length mem' = length mem /\
      (p <= p')%nat /\ gobbles (peek mem' p') = false.
Proof.
  induction fuel as [|k IH]; intros mem p Hfuel; [lia|].
  cbn [gobble]. fold (gobbles (peek mem p)).
  destruct (gobbles (peek mem p)) eqn:E.
  - unfold gobbles in E. apply andb_prop in E as [E _].
    apply negb_true_iff, peek_inside in E.
    destruct (IH (poke mem p NUL) (S p)) as (mem' & p' & Hrun & Hlen & Hp & Hstop).
    { rewrite length_poke. lia. }
    exists mem', p'. rewrite Hrun, Hlen, length_poke. repeat split; auto; lia.
  - exists mem, p. auto.
Qed.

Lemma scan_arg_total (fuel : nat) :
  forall (mem : list ascii) (p : nat),
    (length mem - p < fuel)%nat ->
    exists p',
      scan_arg fuel mem p = Some p' /\ (p <= p')%nat /\
      (scans (peek mem p) = true -> p < p')%nat.
Proof.
  induction fuel as [|k IH]; intros mem p Hfuel; [lia|].
  cbn [scan_arg]. fold (scans (peek mem p)).
  destruct (scans (peek mem p)) eqn:E.
  - unfold scans in E. apply andb_prop in E as [E _].
    apply negb_true_iff, peek_inside in E.
    destruct (IH mem (S p)) as (p' & Hrun & Hp & _); [lia|].
    exists p'. repeat split; auto; lia.
  - exists p. repeat split; auto. discriminate.
Qed.

Lemma gobbles_scans (c : ascii) :
  gobbles c = false -> is_nul c = false -> scans c = true.
Proof.
  unfold gobbles, scans. intros Hg Hn. rewrite Hn in *. simpl in *.
  now rewrite Hg.
Qed.

Lemma parse_loop_total (fuel : nat) :
  forall (mem : list ascii) (p : nat) (argv : list nat),
    (length mem - p < fuel)%nat ->
    exists r, parse_loop fuel mem p argv = Some r.
Proof.
  induction fuel as [|k IH]; intros mem p argv Hfuel; [lia|].
  cbn [parse_loop].
  destruct (gobble_total (S (length mem)) mem p) as (mem1 & p1 & -> & Hlen & Hp & Hstop);
    [lia|].
  destruct (is_nul (peek mem1 p1)) eqn:En; [eauto|].
  destruct (Z.of_nat (length argv) =? MAXARGS - 1); [eauto|].
  destruct (scan_arg_total (S (length mem1)) mem1 p1) as (p2 & -> & _ & Hp2);
    [lia|].
  specialize (Hp2 (gobbles_scans _ Hstop En)).
  apply peek_inside in En.
  apply IH. lia.
Qed.

(** The budget [parse] gives the loop is enough on every line. *)
Lemma parse_total (line : list ascii) : exists r, parse line = Some r.
Proof. apply parse_loop_total. lia. Qed.

(** ** Tokenizing a line *)

Lemma parse_words (line : list ascii) :
  well_formed line -> (length (words line) <= 15)%nat ->
  exists mem argv,
    parse line = Some (Args mem argv) /\ views mem argv = words line.
Proof.
  intros Hwf Hn. pose proof (splits_words line Hwf) as Hsp.
  pose proof (splits_length _ _ Hsp) as Hlen.
  destruct (parse_loop_splits line (words line) Hsp [] [] (S (length (line ++ [NUL]))))
    as (offs & Hrun & Hviews).
  { simpl. lia. }
  { rewrite length_app. simpl. lia. }
  exists ([] ++ map zero_ws line ++ [NUL]), ([] ++ offs). split.
  - exact Hrun.
  - now apply Hviews.
Qed.

Lemma parse_too_many (line : list ascii) :
  well_formed line -> (15 < length (words line))%nat ->
  parse line = Some TooMany.
Proof.
  intros Hwf Hn. pose proof (splits_words line Hwf) as Hsp.
  pose proof (splits_length _ _ Hsp) as Hlen.
  apply (parse_loop_overflow line (words line) Hsp [] []).
  - simpl. lia.
  - simpl. lia.
  - rewrite length_app. simpl. lia.
Qed.

(** ** The tokenizer against the specification *)

Ltac run_monitor :=
  unfold monitor_turn, runcmd_in, dispatch, tokenize, bind, ret, cprintf,
    emit, panic, env_run, out_of_steps, blocked, tf_get, tf_put_eflags,
    printed, prompted;
  cbn [m_tf m_out fst snd].

(** C2, as the code has it: a well-formed line with N tokens, N between
    1 and 15, is tokenized into its N tokens, all of them non-empty and
    in the order of the line, and nothing is printed. *)
Theorem tokenize_words (line : list ascii) (m : machine) :
  well_formed line ->
  (1 <= length (words line) <= 15)%nat ->
  tokenize line m = (Value (Some (words line)), m)
  /\ Forall (fun t => t <> []) (words line).
Proof.
  intros Hwf [_ Hn]. split; [|now apply words_nonempty].
  destruct (parse_words line Hwf Hn) as (mem & argv & Hp & Hv).
  unfold tokenize. rewrite Hp, Hv. reflexivity.
Qed.

Lemma tokenize_words_witness :
  tokenize (chars "showmappings 0x1000 0x3000") (boot None)
  = (Value (Some [chars "showmappings"; chars "0x1000"; chars "0x3000"]),
     boot None)
  /\ Forall (fun t => t <> []) (words (chars "showmappings 0x1000 0x3000")).
Proof.
  apply (tokenize_words (chars "showmappings 0x1000 0x3000") (boot None)).
  - unfold well_formed. repeat constructor.
  - vm_compute. lia.
Defined.

(** C2, as stated, fails at 16 tokens: the line is well formed and has
    16 tokens, and the tokenizer prints the message and gives up. *)
Lemma tokenize_16_tokens_rejected :
  well_formed (letters 16)
  /\ length (words (letters 16)) = 16%nat
  /\ tokenize (letters 16) (boot None)
     = (Value None, printed "Too many arguments (max %d)\n" [Num 16] (boot None)).
Proof.
  split; [|split].
  - unfold well_formed. repeat constructor.
  - reflexivity.
  - reflexivity.
Qed.

(** C3: on a well-formed line with more than 15 tokens [runcmd] prints
    the message about too many arguments and returns 0, whatever the
    command table holds: no handler runs.  The loop of the monitor goes
    on. *)
Theorem runcmd_too_many_arguments (cmds : list Command) (line : list ascii)
    (m : machine) :
  well_formed line ->
  (15 < length (words line))%nat ->
  runcmd_in cmds line m
  = (Value 0, printed "Too many arguments (max %d)\n" [Num 16] m)
  /\ monitor_turn cmds (Some line) m
     = (Value Continue,
        printed "Too many arguments (max %d)\n" [Num 16] (prompted m)).
Proof.
  intros Hwf Hn. pose proof (parse_too_many line Hwf Hn) as Hp.
  run_monitor. rewrite Hp. split; reflexivity.
Qed.

Lemma runcmd_too_many_arguments_witness :
  runcmd_in (commands (K := jos) 0) (letters 16) (boot None)
  = (Value 0, printed "Too many arguments (max %d)\n" [Num 16] (boot None))
  /\ monitor_turn (commands (K := jos) 0) (Some (letters 16)) (boot None)
     = (Value Continue,
        printed "Too many arguments (max %d)\n" [Num 16] (prompted (boot None))).
Proof.
  apply (runcmd_too_many_arguments (commands (K := jos) 0) (letters 16) (boot None)).
  - unfold well_formed. repeat constructor.
  - vm_compute. lia.
Defined.

(** ** The loop of the monitor *)

(** The turn of the loop on a line that invokes a handler, over any
    table: the test [runcmd(buf, tf) < 0] decides on the result [r] of
    the handler. *)
Lemma monitor_turn_after_handler (cmds : list Command)
    (line mem : list ascii) (argv : list nat) (c : Command)
    (m m' : machine) (r : Z) :
  parse line = Some (Args mem argv) ->
  argv <> [] ->
  find_command cmds (argv_at (views mem argv) 0) = Some c ->
  func c (Z.of_nat (length argv)) (views mem argv) (prompted m) = (Value r, m') ->
  monitor_turn cmds (Some line) m
  = (Value (if r <? 0 then Break else Continue), m')
  /\ (fst (monitor_turn cmds (Some line) m) = Value Break <-> r < 0)
  /\ forall rest : list (option (list ascii)),
       monitor_loop cmds (Some line :: rest) m
       = if r <? 0 then (Value tt, m') else monitor_loop cmds rest m'.
Proof.
  intros Hp Hne Hfind Hrun.
  assert (Hturn : monitor_turn cmds (Some line) m
                  = (Value (if r <? 0 then Break else Continue), m')).
  { run_monitor. rewrite Hp. unfold views in *. rewrite length_map.
    destruct argv as [|a argv]; [congruence|].
    replace (Z.of_nat (length (a :: argv)) =? 0) with false
      by (symmetry; apply Z.eqb_neq; simpl; lia).
    rewrite Hfind. unfold prompted in Hrun. rewrite Hrun. reflexivity. }
  split; [exact Hturn|]. split.
  - rewrite Hturn. cbn [fst]. destruct (Z.ltb_spec r 0) as [Hr|Hr].
    + tauto.
    + split; [discriminate|lia].
  - intros rest. cbn [monitor_loop]. unfold bind at 1. rewrite Hturn.
    destruct (r <? 0); reflexivity.
Qed.

(** ** showmappings *)

(** C6: with two address arguments of which the second is below the
    first, [mon_showmappings] prints the message about the range and
    nothing else, asks the page tables nothing, and returns -1. *)
Theorem showmappings_reversed_range {K : Kernel} (fuel : nat)
    (argv : list (list ascii)) (m : machine) :
  to_uint32 (strtol (argv_at argv 2) 16) < to_uint32 (strtol (argv_at argv 1) 16) ->
  mon_showmappings fuel 3 argv m
  = (Value (-1), printed "start_addr cannot exceed end_addr\n" [] m).
Proof.
  intros Hlt. unfold mon_showmappings. cbn [Z.eqb Pos.eqb negb].
  apply Z.ltb_lt in Hlt. rewrite Hlt. reflexivity.
Qed.

Lemma showmappings_reversed_range_witness :
  mon_showmappings (K := jos) 8 3
    [chars "showmappings"; chars "2000"; chars "1000"] (boot None)
  = (Value (-1), printed "start_addr cannot exceed end_addr\n" [] (boot None)).
Proof.
  apply (showmappings_reversed_range (K := jos) 8
           [chars "showmappings"; chars "2000"; chars "1000"] (boot None)).
  vm_compute. reflexivity.
Defined.

(** With a page-aligned address as start and end nothing is looked up
    or printed. *)
Lemma showmappings_same_aligned_address {K : Kernel} (fuel : nat)
    (argv : list (list ascii)) (m : machine) :
  to_uint32 (strtol (argv_at argv 1) 16) = to_uint32 (strtol (argv_at argv 2) 16) ->
  to_uint32 (strtol (argv_at argv 1) 16) mod PGSIZE = 0 ->
  mon_showmappings fuel 3 argv m = (Value 0, m).
Proof.
  intros Hsame Hal. unfold mon_showmappings. cbn [Z.eqb Pos.eqb negb].
  rewrite <- Hsame, Z.ltb_irrefl. unfold ROUNDDOWN. rewrite Hal, Z.sub_0_r.
  unfold bind.
  destruct fuel; cbn [showmappings_loop]; rewrite Z.ltb_irrefl; reflexivity.
Qed.

(** C4 fails on the code: with the same address 1 as start and end, the
    page at 0 is looked up and printed, since the loop compares the page
    address with the end address as given and not with [end_page]. *)
Theorem showmappings_same_address_prints_page :
  runcmd (K := jos) 8 (chars "showmappings 1 1") (boot None)
  = (Value 0,
     {| m_tf := None;
        m_out :=
          [ PgdirWalk 0;
            Cprintf
              "VA %08x is mapped to PA %08x permissions: PTE_P %x PTE_W %x PTE_U %x\n"
              [Num 0; Num 0; Num 1; Num 2; Num 0] ] |}).
Proof. reflexivity. Qed.

(** C5 fails on the code: from 0 to 0x1001 the interval of page floors
    is [0, 0x1000), one page, and two pages are printed, 0 and 0x1000. *)
Theorem showmappings_unaligned_end_prints_extra_page :
  (ROUNDDOWN 4097 4096 - ROUNDDOWN 0 4096) / 4096 = 1
  /\ runcmd (K := jos) 8 (chars "showmappings 0 1001") (boot None)
     = (Value 0,
        {| m_tf := None;
           m_out :=
             [ PgdirWalk 0;
               Cprintf
                 "VA %08x is mapped to PA %08x permissions: PTE_P %x PTE_W %x PTE_U %x\n"
                 [Num 0; Num 0; Num 1; Num 2; Num 0];
               PgdirWalk 4096;
               Cprintf
                 "VA %08x is mapped to PA %08x permissions: PTE_P %x PTE_W %x PTE_U %x\n"
                 [Num 4096; Num 4096; Num 1; Num 2; Num 0] ] |}).
Proof. split; reflexivity. Qed.

(** ** continue and si *)


Lemma clear_tf_bit_spec (eflags i : Z) :
  0 <= i < 32 ->
  Z.testbit (clear_tf_bit eflags) i
  = if i =? 8 then false else Z.testbit eflags i.
Proof.
  intros Hi. unfold clear_tf_bit, to_uint32.
  rewrite Z.land_spec.
  rewrite Z.mod_pow2_bits_low by lia.
  rewrite Z.lnot_spec by lia. rewrite Z.shiftl_spec by lia.
  destruct (Z.eqb_spec i 8) as [->|Hne].
  - cbn. apply andb_false_r.
  - replace (Z.testbit 1 (i - 8)) with false; [cbn; apply andb_true_r|].
    symmetry. destruct (Z.ltb_spec i 8).
    + apply Z.testbit_neg_r. lia.
    + apply (Z.bits_above_log2 1 (i - 8)); simpl; lia.
Qed.

Lemma set_tf_bit_spec (eflags i : Z) :
  0 <= i < 32 ->
  Z.testbit (set_tf_bit eflags) i
  = if i =? 8 then true else Z.testbit eflags i.
Proof.
  intros Hi. unfold set_tf_bit, to_uint32.
  rewrite Z.mod_pow2_bits_low by lia.
  rewrite Z.lor_spec. rewrite Z.shiftl_spec by lia.
  destruct (Z.eqb_spec i 8) as [->|Hne].
  - cbn. apply orb_true_r.
  - replace (Z.testbit 1 (i - 8)) with false; [apply orb_false_r|].
    symmetry. destruct (Z.ltb_spec i 8).
    + apply Z.testbit_neg_r. lia.
    + apply (Z.bits_above_log2 1 (i - 8)); simpl; lia.
Qed.










(** C10: [continue] and [si] with one argument read [tf->tf_trapno]
    first thing, without a test of [tf]; with the NULL context they read
    through it.  [monitor] accepts the NULL context (it only leaves the
    trap frame unprinted), so a monitor entered without a context gets
    there on the lines "continue", "c" and "si". *)
Theorem continue_si_null_context {K : Kernel} (fuel : nat)
    (argv : list (list ascii)) (out : list event)
    (rest : list (option (list ascii))) :
  let m := {| m_tf := None; m_out := out |} in
  let entered :=
    prompted
      (printed "Type 'help' for a list of commands.\n" []
         (printed "Welcome to the JOS kernel monitor!\n" [] m)) in
  mon_continue 1 argv m = (NullDeref, m)
  /\ mon_si 1 argv m = (NullDeref, m)
  /\ monitor fuel (Some (chars "continue") :: rest) m = (NullDeref, entered)
  /\ monitor fuel (Some (chars "c") :: rest) m = (NullDeref, entered)
  /\ monitor fuel (Some (chars "si") :: rest) m = (NullDeref, entered).
Proof. repeat split. Qed.

(** The lines "continue", "c" and "si" reach the handlers with one
    argument, and "showmappings a b" reaches its handler with three. *)
Lemma runcmd_reaches_handlers {K : Kernel} (fuel : nat) (m : machine) :
  runcmd fuel (chars "continue") m = mon_continue 1 [chars "continue"] m
  /\ runcmd fuel (chars "c") m = mon_continue 1 [chars "c"] m
  /\ runcmd fuel (chars "si") m = mon_si 1 [chars "si"] m
  /\ runcmd fuel (chars "showmappings 1000 3000") m
     = mon_showmappings fuel 3
         [chars "showmappings"; chars "1000"; chars "3000"] m.
Proof. repeat split. Qed.

(** [mon_help] prints the table. *)
Lemma command_info_commands {K : Kernel} (fuel : nat) :
  map (fun c => (name c, desc c)) (commands fuel) = command_info.
Proof. reflexivity. Qed.

(** ** What the loop of showmappings prints *)

Lemma traced_traced (es es' : list event) (m : machine) :
  traced es' (traced es m) = traced (es ++ es') m.
Proof. unfold traced. cbn. now rewrite app_assoc. Qed.

Lemma traced_nil (m : machine) : traced [] m = m.
Proof. destruct m. unfold traced. cbn. now rewrite app_nil_r. Qed.

Lemma show_page_events {K : Kernel} (va : Z) (m : machine) :
  show_page va m = (Value tt, traced (page_events va) m).
Proof.
  unfold show_page, page_events, traced, bind, cprintf, emit.
  destruct (pgdir_walk va); cbn [m_tf m_out]; now rewrite <- app_assoc.
Qed.

(** The loop started at [p] with [n] pages below [end_addr] and the
    next one not below it prints these [n] pages and ends, provided the
    addresses stay below 2^32. *)
Lemma showmappings_loop_pages {K : Kernel} (n : nat) :
  forall (fuel : nat) (p end_addr : Z) (m : machine),
    0 < PGSIZE -> 0 <= p ->
    p + Z.of_nat n * PGSIZE < 2 ^ 32 ->
    (n = 0%nat \/ p + (Z.of_nat n - 1) * PGSIZE < end_addr) ->
    end_addr <= p + Z.of_nat n * PGSIZE ->
    (n <= fuel)%nat ->
    showmappings_loop fuel p end_addr m
    = (Value tt, traced (flat_map page_events (pages n p)) m).
Proof.
  induction n as [|n IH]; intros fuel p end_addr m Hpg Hp Hmax Hlow Hhigh Hfuel.
  - assert (E : (p <? end_addr) = false) by (apply Z.ltb_ge; lia).
    destruct fuel; cbn [showmappings_loop pages flat_map]; rewrite E;
      now rewrite traced_nil.
  - destruct fuel as [|fuel]; [lia|].
    assert (E : (p <? end_addr) = true) by (apply Z.ltb_lt; nia).
    cbn [showmappings_loop pages flat_map]. rewrite E.
    unfold bind at 1. rewrite show_page_events.
    assert (Hnext : to_uint32 (p + PGSIZE) = p + PGSIZE).
    { unfold to_uint32. apply Z.mod_small. nia. }
    assert (Hrest : n = 0%nat \/ p + PGSIZE + (Z.of_nat n - 1) * PGSIZE < end_addr).
    { destruct n as [|n']; [left; reflexivity|right]. nia. }
    rewrite Hnext, (IH fuel (p + PGSIZE) end_addr) by (auto; nia).
    now rewrite traced_traced.
Qed.

(** What [mon_showmappings] does on a range that is in order and ends
    PGSIZE or more below 2^32: it prints the pages from the floor of the
    start address up to the last one that begins below the end address,
    and returns 0. *)
Lemma mon_showmappings_pages {K : Kernel} (fuel : nat)
    (argv : list (list ascii)) (m : machine) :
  let start_addr := to_uint32 (strtol (argv_at argv 1) 16) in
  let end_addr := to_uint32 (strtol (argv_at argv 2) 16) in
  let start_page := ROUNDDOWN start_addr PGSIZE in
  let n := Z.to_nat ((end_addr - start_page + PGSIZE - 1) / PGSIZE) in
  0 < PGSIZE ->
  start_addr <= end_addr ->
  end_addr + PGSIZE <= 2 ^ 32 ->
  (n <= fuel)%nat ->
  mon_showmappings fuel 3 argv m
  = (Value 0, traced (flat_map page_events (pages n start_page)) m).
Proof.
  intros start_addr end_addr start_page n Hpg Horder Htop Hfuel.
  unfold mon_showmappings. cbn [Z.eqb Pos.eqb negb].
  fold start_addr end_addr.
  replace (end_addr <? start_addr) with false by (symmetry; apply Z.ltb_ge; lia).
  fold start_page. unfold bind at 1.
  assert (Hs0 : 0 <= start_addr) by (apply Z.mod_pos_bound; lia).
  assert (Hfloor : 0 <= start_page <= start_addr).
  { unfold start_page, ROUNDDOWN.
    pose proof (Z.mod_pos_bound start_addr PGSIZE Hpg).
    pose proof (Z.mod_le start_addr PGSIZE Hs0 Hpg). lia. }
  set (d := end_addr - start_page) in *.
  assert (Hd : 0 <= d) by (unfold d; lia).
  assert (Hq : 0 <= (d + PGSIZE - 1) / PGSIZE) by (apply Z.div_pos; lia).
  assert (Hn : Z.of_nat n = (d + PGSIZE - 1) / PGSIZE).
  { unfold n. fold d. replace (end_addr - start_page + PGSIZE - 1)
      with (d + PGSIZE - 1) by (unfold d; lia).
    rewrite Z2Nat.id; [reflexivity|exact Hq]. }
  assert (Hnz : PGSIZE <> 0) by lia.
  pose proof (Z.div_mod (d + PGSIZE - 1) PGSIZE Hnz) as Hdm.
  pose proof (Z.mod_pos_bound (d + PGSIZE - 1) PGSIZE Hpg) as Hmb.
  assert (Hmax : start_page + Z.of_nat n * PGSIZE < 2 ^ 32) by (rewrite Hn; nia).
  assert (Hlow : n = 0%nat \/ start_page + (Z.of_nat n - 1) * PGSIZE < end_addr).
  { destruct (Nat.eq_dec n 0) as [Hz|Hz]; [now left|right]. rewrite Hn. nia. }
  assert (Hhigh : end_addr <= start_page + Z.of_nat n * PGSIZE) by (rewrite Hn; nia).
  rewrite (showmappings_loop_pages n fuel start_page end_addr m Hpg
             (proj1 Hfloor) Hmax Hlow Hhigh Hfuel).
  reflexivity.
Qed.

Lemma aligned_below_top (P p : Z) :
  0 < P -> 2 ^ 32 mod P = 0 -> 0 <= p < 2 ^ 32 -> p mod P = 0 ->
  p <= 2 ^ 32 - P.
Proof.
  intros HP Hdiv Hp Hal.
  apply Z.mod_divide in Hal; [|lia]. apply Z.mod_divide in Hdiv; [|lia].
  destruct Hal as [a Ha], Hdiv as [b Hb].
  assert (Hab : a < b) by nia.
  rewrite Hb, Ha. nia.
Qed.

Lemma aligned_next (P p : Z) :
  0 < P -> 2 ^ 32 mod P = 0 -> p mod P = 0 ->
  to_uint32 (p + P) mod P = 0.
Proof.
  intros HP Hdiv Hal. unfold to_uint32.
  apply Z.mod_divide in Hal; [|lia]. apply Z.mod_divide in Hdiv; [|lia].
  apply Z.mod_divide; [lia|].
  destruct Hal as [a Ha], Hdiv as [b Hb].
  rewrite Z.mod_eq by lia.
  set (q := (p + P) / 2 ^ 32).
  exists (a + 1 - q * b).
  rewrite Hb, Ha. ring.
Qed.

(** On a range that ends less than PGSIZE below 2^32 the loop of
    showmappings does not end: every page address is below the end
    address, and the addition wraps around to 0. *)
Lemma showmappings_loop_wraps {K : Kernel} (fuel : nat) :
  forall (p end_addr : Z) (m : machine),
    0 < PGSIZE -> 2 ^ 32 mod PGSIZE = 0 ->
    2 ^ 32 - PGSIZE < end_addr ->
    0 <= p < 2 ^ 32 -> p mod PGSIZE = 0 ->
    fst (showmappings_loop fuel p end_addr m) = OutOfSteps.
Proof.
  induction fuel as [|fuel IH]; intros p end_addr m Hpg Hdiv Hend Hp Hal;
    pose proof (aligned_below_top PGSIZE p Hpg Hdiv Hp Hal) as Htop;
    assert (E : (p <? end_addr) = true) by (apply Z.ltb_lt; lia);
    cbn [showmappings_loop]; rewrite E.
  - reflexivity.
  - unfold bind at 1. rewrite show_page_events.
    apply IH; auto.
    + unfold to_uint32. apply Z.mod_pos_bound. lia.
    + now apply aligned_next.
Qed.

(** So "showmappings fffff000 ffffffff" never comes back, whatever the
    budget. *)
Lemma showmappings_top_of_memory (fuel : nat) (m : machine) :
  fst (runcmd (K := jos) fuel (chars "showmappings fffff000 ffffffff") m)
  = OutOfSteps.
Proof.
  unfold runcmd, runcmd_in, bind.
  change (tokenize (chars "showmappings fffff000 ffffffff") m)
    with (@Value (option (list (list ascii)))
            (Some [chars "showmappings"; chars "fffff000"; chars "ffffffff"]), m).
  cbv beta iota.
  change (dispatch (commands fuel) [chars "showmappings"; chars "fffff000"; chars "ffffffff"] m)
    with (mon_showmappings (K := jos) fuel 3 [chars "showmappings"; chars "fffff000"; chars "ffffffff"] m).
  unfold mon_showmappings.
  change (negb (3 =? 3)) with false. cbv iota.
  change (to_uint32 (strtol (argv_at [chars "showmappings"; chars "fffff000"; chars "ffffffff"] 1) 16))
    with 4294963200.
  change (to_uint32 (strtol (argv_at [chars "showmappings"; chars "fffff000"; chars "ffffffff"] 2) 16))
    with 4294967295.
  change (4294967295 <? 4294963200) with false. cbv iota zeta.
  change (ROUNDDOWN 4294963200 PGSIZE) with 4294963200.
  unfold bind.
  pose proof (showmappings_loop_wraps (K := jos) fuel 4294963200 4294967295 m) as H.
  destruct (showmappings_loop fuel 4294963200 4294967295 m) as [o m'].
  cbn [fst] in H. rewrite H by (cbn; lia || reflexivity). reflexivity.
Qed.

(** * Further properties of the interpreter *)

(** ** The dispatcher *)

Lemma runcmd_in_words (cmds : list Command) (line : list ascii) (m : machine) :
  well_formed line -> (length (words line) <= 15)%nat ->
  runcmd_in cmds line m = dispatch cmds (words line) m.
Proof.
  intros Hwf Hn. destruct (parse_words line Hwf Hn) as (mem & argv & Hp & Hv).
  unfold runcmd_in, tokenize, bind, ret. now rewrite Hp, Hv.
Qed.

Lemma find_command_none (cmds : list Command) (w : list ascii) :
  (forall c, In c cmds -> name c <> string_of_list_ascii w) ->
  find_command cmds w = None.
Proof.
  induction cmds as [|c cmds IH]; intros Hno; [reflexivity|].
  cbn [find_command]. unfold streq.
  destruct (String.eqb_spec (string_of_list_ascii w) (name c)) as [E|E].
  - exfalso. apply (Hno c); [now left|congruence].
  - apply IH. intros c' Hin. apply Hno. now right.
Qed.

Lemma find_command_first (pre post : list Command) (c : Command)
    (w : list ascii) :
  name c = string_of_list_ascii w ->
  (forall c', In c' pre -> name c' <> string_of_list_ascii w) ->
  find_command (pre ++ c :: post) w = Some c.
Proof.
  intros Hc. induction pre as [|c' pre IH]; intros Hno; cbn [app find_command];
    unfold streq.
  - rewrite Hc, String.eqb_refl. reflexivity.
  - destruct (String.eqb_spec (string_of_list_ascii w) (name c')) as [E|E].
    + exfalso. apply (Hno c'); [now left|congruence].
    + apply IH. intros c'' Hin. apply Hno. now right.
Qed.

(** X1: a line without tokens (empty, or whitespace only) is a silent
    no-op: [runcmd] returns 0 and prints nothing, whatever the table,
    and the loop of the monitor goes on. *)
Theorem runcmd_blank_line (cmds : list Command) (line : list ascii)
    (m : machine) :
  well_formed line -> words line = [] ->
  runcmd_in cmds line m = (Value 0, m)
  /\ monitor_turn cmds (Some line) m = (Value Continue, prompted m).
Proof.
  intros Hwf Hw.
  assert (Hrun : forall m0, runcmd_in cmds line m0 = (Value 0, m0)).
  { intros m0. rewrite runcmd_in_words by (auto; rewrite Hw; simpl; lia).
    rewrite Hw. reflexivity. }
  split; [apply Hrun|].
  unfold monitor_turn, bind, emit. rewrite Hrun. reflexivity.
Qed.

Lemma runcmd_blank_line_witness :
  runcmd_in (commands (K := jos) 0) (chars "   ") (boot None)
  = (Value 0, boot None)
  /\ monitor_turn (commands (K := jos) 0) (Some (chars "   ")) (boot None)
     = (Value Continue, prompted (boot None)).
Proof.
  apply (runcmd_blank_line (commands (K := jos) 0) (chars "   ") (boot None)).
  - unfold well_formed. repeat constructor.
  - reflexivity.
Defined.

(** X2: when no entry of the table has the first token of the line as
    its name, [runcmd] prints "Unknown command" with that token, runs
    no handler, and returns 0; the loop of the monitor goes on. *)
Theorem runcmd_unknown_command (cmds : list Command) (line w : list ascii)
    (args : list (list ascii)) (m : machine) :
  well_formed line -> words line = w :: args ->
  (length (words line) <= 15)%nat ->
  (forall c, In c cmds -> name c <> string_of_list_ascii w) ->
  runcmd_in cmds line m
  = (Value 0, printed "Unknown command '%s'\n" [Str (string_of_list_ascii w)] m)
  /\ monitor_turn cmds (Some line) m
     = (Value Continue,
        printed "Unknown command '%s'\n" [Str (string_of_list_ascii w)]
          (prompted m)).
Proof.
  intros Hwf Hw Hn Hno.
  assert (Hrun : forall m0, runcmd_in cmds line m0
            = (Value 0, printed "Unknown command '%s'\n"
                          [Str (string_of_list_ascii w)] m0)).
  { intros m0. rewrite runcmd_in_words by auto. rewrite Hw.
    unfold dispatch. cbn [length argv_at nth].
    replace (Z.of_nat (S (length args)) =? 0) with false
      by (symmetry; apply Z.eqb_neq; lia).
    rewrite (find_command_none cmds w Hno). reflexivity. }
  split; [apply Hrun|].
  unfold monitor_turn, bind, emit. rewrite Hrun. reflexivity.
Qed.

Lemma runcmd_unknown_command_witness :
  runcmd_in (commands (K := jos) 0) (chars "zzz 1 2") (boot None)
  = (Value 0, printed "Unknown command '%s'\n" [Str "zzz"] (boot None))
  /\ monitor_turn (commands (K := jos) 0) (Some (chars "zzz 1 2")) (boot None)
     = (Value Continue,
        printed "Unknown command '%s'\n" [Str "zzz"] (prompted (boot None))).
Proof.
  apply (runcmd_unknown_command (commands (K := jos) 0) (chars "zzz 1 2")
           (chars "zzz") [chars "1"; chars "2"] (boot None)).
  - unfold well_formed. repeat constructor.
  - reflexivity.
  - vm_compute. lia.
  - intros c Hin. cbn in Hin.
    repeat (destruct Hin as [<-|Hin]; [discriminate|]). contradiction.
Defined.

(** X3: on a line of at most 15 tokens, the first entry of the table
    whose name is the first token of the line is the one that runs, and
    only it, even when a later entry has the same name; its handler
    gets the number of tokens as [argc] and all the tokens, the name
    included, as [argv]. *)
Theorem runcmd_first_match (pre post : list Command) (c : Command)
    (line w : list ascii) (args : list (list ascii)) (m : machine) :
  well_formed line -> words line = w :: args ->
  (length (words line) <= 15)%nat ->
  name c = string_of_list_ascii w ->
  (forall c', In c' pre -> name c' <> string_of_list_ascii w) ->
  runcmd_in (pre ++ c :: post) line m
  = func c (Z.of_nat (length (w :: args))) (w :: args) m.
Proof.
  intros Hwf Hw Hn Hc Hno. rewrite runcmd_in_words by auto. rewrite Hw.
  unfold dispatch. cbn [argv_at nth].
  replace (Z.of_nat (length (w :: args)) =? 0) with false
    by (symmetry; apply Z.eqb_neq; simpl; lia).
  now rewrite (find_command_first pre post c w Hc Hno).
Qed.

Lemma runcmd_first_match_witness :
  runcmd_in
    ([mkCommand "a" "first" (fun _ _ => ret 1)]
       ++ mkCommand "b" "second" (fun argc _ => ret argc)
       :: [mkCommand "b" "third" (fun _ _ => ret 7)])
    (chars "b x y") (boot None)
  = func (mkCommand "b" "second" (fun argc _ => ret argc))
      (Z.of_nat (length [chars "b"; chars "x"; chars "y"]))
      [chars "b"; chars "x"; chars "y"] (boot None).
Proof.
  apply (runcmd_first_match
           [mkCommand "a" "first" (fun _ _ => ret 1)]
           [mkCommand "b" "third" (fun _ _ => ret 7)]
           (mkCommand "b" "second" (fun argc _ => ret argc))
           (chars "b x y") (chars "b") [chars "x"; chars "y"] (boot None)).
  - unfold well_formed. repeat constructor.
  - reflexivity.
  - vm_compute. lia.
  - reflexivity.
  - intros c' [<-|[]]. discriminate.
Defined.

(** ** What the handlers of the table return *)

Lemma value_seq {A B : Type} (c : M A) (k : A -> M B) (P : B -> Prop) :
  (forall a m r, fst (k a m) = Value r -> P r) ->
  forall m r, fst (bind c k m) = Value r -> P r.
Proof.
  intros Hk m r. unfold bind. destruct (c m) as [[a|msg| | | |] m'];
    cbn [fst]; try discriminate.
  apply Hk.
Qed.

Lemma value_ret {A : Type} (v : A) (P : A -> Prop) :
  P v -> forall m r, fst (ret v m) = Value r -> P r.
Proof. intros Hv m r H. cbn in H. now injection H as <-. Qed.

(** The shape of every handler: a usage error gives -1, the rest ends
    in [return 0]. *)
Ltac handler_values :=
  repeat first
    [ apply value_ret; (now left) || (now right)
    | apply value_seq; intro ].

Lemma zero_or_minus_one_if {A : Type} (b : bool) (c1 c2 : M A) (P : A -> Prop) :
  (forall m r, fst (c1 m) = Value r -> P r) ->
  (forall m r, fst (c2 m) = Value r -> P r) ->
  forall m r, fst ((if b then c1 else c2) m) = Value r -> P r.
Proof. destruct b; auto. Qed.

Lemma handlers_return_0_or_minus_1 {K : Kernel} (fuel : nat) (c : Command) :
  In c (commands fuel) ->
  forall argc argv m r,
    fst (func c argc argv m) = Value r -> r = 0 \/ r = -1.
Proof.
  intros Hin argc argv. cbn in Hin.
  repeat (destruct Hin as [<-|Hin]); try contradiction; cbn [func];
    unfold mon_help, mon_kerninfo, mon_backtrace, mon_showmappings,
      mon_continue, mon_si;
    repeat first
      [ apply value_ret; (now left) || (now right)
      | apply zero_or_minus_one_if
      | apply value_seq; intro ].
Qed.

Lemma find_command_In (cmds : list Command) (w : list ascii) (c : Command) :
  find_command cmds w = Some c -> In c cmds.
Proof.
  induction cmds as [|c' cmds IH]; cbn [find_command]; [discriminate|].
  destruct (streq w (name c')).
  - intros [= ->]. now left.
  - intros H. right. auto.
Qed.

Lemma runcmd_value {K : Kernel} (fuel : nat) (line : list ascii)
    (m : machine) (r : Z) :
  fst (runcmd fuel line m) = Value r -> r = 0 \/ r = -1.
Proof.
  unfold runcmd, runcmd_in. revert m r. apply value_seq. intros [args|].
  - unfold dispatch. destruct (Z.of_nat (length args) =? 0).
    + apply value_ret. now left.
    + destruct (find_command (commands fuel) (argv_at args 0)) as [c|] eqn:E.
      * apply (handlers_return_0_or_minus_1 fuel c).
        now apply find_command_In in E.
      * handler_values.
  - apply value_ret. now left.
Qed.

(** C1: in the monitor of the program, when a line invokes a handler of
    the command table and the handler returns [r], the loop is left if
    and only if [r] is exactly -1, and it goes on with the next line on
    every other result.  (The loop tests [r < 0]; the handlers of the
    table return 0 or -1 and nothing else.) *)
Theorem monitor_exits_iff_handler_returns_minus_1 {K : Kernel} (fuel : nat)
    (line mem : list ascii) (argv : list nat) (c : Command)
    (m m' : machine) (r : Z) :
  parse line = Some (Args mem argv) ->
  argv <> [] ->
  find_command (commands fuel) (argv_at (views mem argv) 0) = Some c ->
  func c (Z.of_nat (length argv)) (views mem argv) (prompted m) = (Value r, m') ->
  monitor_turn (commands fuel) (Some line) m
  = (Value (if r =? -1 then Break else Continue), m')
  /\ (fst (monitor_turn (commands fuel) (Some line) m) = Value Break
      <-> r = -1)
  /\ (fst (monitor_turn (commands fuel) (Some line) m) = Value Continue
      <-> r <> -1)
  /\ forall rest : list (option (list ascii)),
       monitor_loop (commands fuel) (Some line :: rest) m
       = if r =? -1 then (Value tt, m')
         else monitor_loop (commands fuel) rest m'.
Proof.
  intros Hp Hne Hfind Hrun.
  assert (Hr : r = 0 \/ r = -1).
  { apply (handlers_return_0_or_minus_1 fuel c (find_command_In _ _ _ Hfind)
             (Z.of_nat (length argv)) (views mem argv) (prompted m)).
    now rewrite Hrun. }
  destruct (monitor_turn_after_handler (commands fuel) line mem argv c m m' r
              Hp Hne Hfind Hrun) as (Hturn & _ & Hloop).
  destruct Hr as [-> | ->]; cbn [Z.ltb Z.eqb Z.compare] in *;
    rewrite Hturn; cbn [fst]; repeat split;
    try discriminate; try lia; try exact Hloop; intros H; try discriminate H;
    try lia.
Qed.

Lemma monitor_exits_iff_handler_returns_minus_1_witness :
  monitor_turn (commands (K := jos) 0) (Some (chars "showmappings")) (boot None)
  = (Value (if -1 =? -1 then Break else Continue),
     printed "Usage: showmappings <start_addr> <end_addr>\n" []
       (prompted (boot None)))
  /\ (fst (monitor_turn (commands (K := jos) 0) (Some (chars "showmappings"))
            (boot None))
      = Value Break <-> -1 = -1)
  /\ (fst (monitor_turn (commands (K := jos) 0) (Some (chars "showmappings"))
            (boot None))
      = Value Continue <-> -1 <> -1)
  /\ forall rest : list (option (list ascii)),
       monitor_loop (commands (K := jos) 0)
         (Some (chars "showmappings") :: rest) (boot None)
       = if -1 =? -1
         then (Value tt,
               printed "Usage: showmappings <start_addr> <end_addr>\n" []
                 (prompted (boot None)))
         else monitor_loop (commands (K := jos) 0) rest
                (printed "Usage: showmappings <start_addr> <end_addr>\n" []
                   (prompted (boot None))).
Proof.
  apply (monitor_exits_iff_handler_returns_minus_1 (K := jos) 0
           (chars "showmappings")
           (chars "showmappings" ++ [NUL]) [0%nat]
           (mkCommand "showmappings"
              "Display information of all physical page mappings"
              (mon_showmappings (K := jos) 0))
           (boot None) _ (-1)).
  - reflexivity.
  - discriminate.
  - reflexivity.
  - reflexivity.
Defined.

(** X4: with the table of the program, a command line that comes back
    to the loop comes back with 0 or with -1, and the loop of the
    monitor is left exactly when it is -1: every usage error of
    showmappings, continue and si ends the monitor. *)
Theorem monitor_exits_exactly_on_minus_1 {K : Kernel} (fuel : nat)
    (line : list ascii) (m m' : machine) (r : Z) :
  runcmd fuel line (prompted m) = (Value r, m') ->
  (r = 0 \/ r = -1)
  /\ monitor_turn (commands fuel) (Some line) m
     = (Value (if r =? -1 then Break else Continue), m').
Proof.
  intros Hrun.
  assert (Hr : r = 0 \/ r = -1).
  { apply (runcmd_value fuel line (prompted m)). now rewrite Hrun. }
  split; [exact Hr|].
  unfold monitor_turn, bind, emit, ret. unfold runcmd, prompted in Hrun.
  rewrite Hrun. destruct Hr as [-> | ->]; reflexivity.
Qed.

Lemma monitor_exits_exactly_on_minus_1_witness :
  (-1 = 0 \/ -1 = -1)
  /\ monitor_turn (commands (K := jos) 4) (Some (chars "showmappings 3000 1000"))
       (boot None)
     = (Value (if -1 =? -1 then Break else Continue),
        printed "start_addr cannot exceed end_addr\n" [] (prompted (boot None))).
Proof.
  apply (monitor_exits_exactly_on_minus_1 (K := jos) 4
           (chars "showmappings 3000 1000") (boot None)).
  reflexivity.
Defined.

(** ** The saved context *)

Lemma context_kept_ret {A : Type} (a : A) : context_kept (ret a).
Proof.
  intros m. cbn. repeat split; try discriminate.
  exists []. now rewrite app_nil_r.
Qed.

Lemma context_kept_emit (e : event) : context_kept (emit e).
Proof. intros m. cbn. repeat split; try discriminate. now exists [e]. Qed.

Lemma context_kept_cprintf (fmt : string) (args : list arg) :
  context_kept (cprintf fmt args).
Proof. apply context_kept_emit. Qed.

Lemma context_kept_panic {A : Type} (msg : string) :
  context_kept (@panic A msg).
Proof.
  intros m. cbn. repeat split; try discriminate.
  exists []. now rewrite app_nil_r.
Qed.

Lemma context_kept_out_of_steps {A : Type} : context_kept (@out_of_steps A).
Proof.
  intros m. cbn. repeat split; try discriminate.
  exists []. now rewrite app_nil_r.
Qed.

Lemma context_kept_blocked {A : Type} : context_kept (@blocked A).
Proof.
  intros m. cbn. repeat split; try discriminate.
  exists []. now rewrite app_nil_r.
Qed.

Lemma context_kept_bind {A B : Type} (c : M A) (k : A -> M B) :
  context_kept c -> (forall a, context_kept (k a)) -> context_kept (bind c k).
Proof.
  intros Hc Hk m. destruct (Hc m) as ((es & Hout) & Hsame & Hres).
  unfold bind. destruct (c m) as [[a|msg| | | |] m1] eqn:E; cbn [fst snd] in *;
    try (split; [eauto | split; [intros _; apply Hsame; discriminate | discriminate]]).
  - destruct (Hk a m1) as ((es' & Hout') & Hsame' & Hres').
    rewrite Hsame in * by discriminate.
    repeat split.
    + exists (es ++ es'). now rewrite Hout', Hout, app_assoc.
    + exact Hsame'.
    + exact Hres'.
  - split; [eauto | split; [intros H; exfalso; apply H; reflexivity | ]].
    intros _. now apply Hres.
Qed.

Lemma context_kept_if {A : Type} (b : bool) (c1 c2 : M A) :
  context_kept c1 -> context_kept c2 -> context_kept (if b then c1 else c2).
Proof. destruct b; auto. Qed.

Ltac context_step :=
  lazymatch goal with
  | |- context_kept (bind _ _) => apply context_kept_bind; [|intro]
  | |- context_kept (ret _) => apply context_kept_ret
  | |- context_kept (cprintf _ _) => apply context_kept_cprintf
  | |- context_kept (emit _) => apply context_kept_emit
  | |- context_kept (panic _) => apply context_kept_panic
  | |- context_kept out_of_steps => apply context_kept_out_of_steps
  | |- context_kept blocked => apply context_kept_blocked
  | |- context_kept (if _ then _ else _) => apply context_kept_if
  end.

Ltac context_steps := repeat context_step.

Lemma context_kept_help_loop (rows : list (string * string)) :
  context_kept (help_loop rows).
Proof.
  induction rows as [|[n d] rows IH]; cbn [help_loop]; context_steps. exact IH.
Qed.

Lemma context_kept_backtrace_loop {K : Kernel} (n : nat) :
  forall ebp, context_kept (backtrace_loop n ebp).
Proof.
  induction n as [|n IH]; intros ebp; cbn [backtrace_loop]; cbv zeta;
    context_steps.
  apply IH.
Qed.

Lemma context_kept_show_page {K : Kernel} (va : Z) : context_kept (show_page va).
Proof. unfold show_page. context_steps. destruct (pgdir_walk va); context_steps. Qed.

Lemma context_kept_showmappings_loop {K : Kernel} (n : nat) :
  forall p e, context_kept (showmappings_loop n p e).
Proof.
  induction n as [|n IH]; intros p e; cbn [showmappings_loop]; context_steps.
  - apply context_kept_show_page.
  - apply IH.
Qed.

Lemma context_kept_tokenize (line : list ascii) : context_kept (tokenize line).
Proof.
  unfold tokenize. destruct (parse line) as [[|mem argv]|]; context_steps.
Qed.

Lemma set_eflags_same (t : Trapframe) : set_eflags t (tf_eflags t) = t.
Proof. now destruct t. Qed.

Ltac context_facts :=
  cbn; split; [exists []; now rewrite app_nil_r|];
  split; [intros H; try reflexivity; exfalso; apply H; reflexivity|];
  intros H; try discriminate H.

Lemma context_kept_continue {K : Kernel} (argc : Z) (argv : list (list ascii)) :
  context_kept (mon_continue argc argv).
Proof.
  unfold mon_continue. apply context_kept_if; [context_steps|].
  intros [[t|] out]; unfold bind, tf_get, tf_put_eflags, panic, env_run, ret;
    cbn; [|context_facts].
  destruct (negb (tf_trapno t =? T_BRKPT) && negb (tf_trapno t =? T_DEBUG));
    [context_facts|].
  cbn. destruct (tf_trapno t =? T_DEBUG); context_facts.
  - eauto.
  - exists t, (tf_eflags t). now rewrite set_eflags_same.
Qed.

Lemma context_kept_si {K : Kernel} (argc : Z) (argv : list (list ascii)) :
  context_kept (mon_si argc argv).
Proof.
  unfold mon_si. apply context_kept_if; [context_steps|].
  intros [[t|] out]; unfold bind, tf_get, tf_put_eflags, panic, env_run, ret;
    cbn; [|context_facts].
  destruct (negb (tf_trapno t =? T_BRKPT) && negb (tf_trapno t =? T_DEBUG));
    context_facts.
  eauto.
Qed.

Lemma context_kept_handlers {K : Kernel} (fuel : nat) (c : Command) :
  In c (commands fuel) ->
  forall argc argv, context_kept (func c argc argv).
Proof.
  intros Hin argc argv. cbn in Hin.
  repeat (destruct Hin as [<-|Hin]); try contradiction; cbn [func].
  - unfold mon_help. context_steps. apply context_kept_help_loop.
  - unfold mon_kerninfo. context_steps.
  - unfold mon_backtrace. context_steps. apply context_kept_backtrace_loop.
  - unfold mon_showmappings. cbv zeta. context_steps.
    apply context_kept_showmappings_loop.
  - apply context_kept_continue.
  - apply context_kept_continue.
  - apply context_kept_si.
Qed.

Lemma context_kept_runcmd {K : Kernel} (fuel : nat) (line : list ascii) :
  context_kept (runcmd fuel line).
Proof.
  unfold runcmd, runcmd_in. apply context_kept_bind.
  - apply context_kept_tokenize.
  - intros [args|]; [|context_steps].
    unfold dispatch. apply context_kept_if; [context_steps|].
    destruct (find_command (commands fuel) (argv_at args 0)) as [c|] eqn:E.
    + apply (context_kept_handlers fuel). now apply find_command_In in E.
    + context_steps.
Qed.

Lemma context_kept_monitor_loop {K : Kernel} (fuel : nat)
    (input : list (option (list ascii))) :
  context_kept (monitor_loop (commands fuel) input).
Proof.
  induction input as [|buf input IH]; cbn [monitor_loop]; [context_steps|].
  apply context_kept_bind.
  - unfold monitor_turn. context_steps. destruct buf as [line|]; context_steps.
    apply (context_kept_runcmd fuel line).
  - intros [|]; [exact IH|context_steps].
Qed.

(** X5: whatever the operator types, the monitor only adds to the
    console, and it leaves the saved context alone: when a session (or a
    single command) ends in any way but by resuming the environment,
    the context is what it was; when it resumes the environment, there
    was a context and at most its flags have changed. *)
Theorem monitor_keeps_context {K : Kernel} (fuel : nat)
    (input : list (option (list ascii))) (line : list ascii) :
  context_kept (monitor fuel input) /\ context_kept (runcmd fuel line).
Proof.
  split; [|apply context_kept_runcmd].
  unfold monitor, monitor_in. context_steps.
  - intros m. destruct (m_tf m) as [t|] eqn:Et; rewrite <- Et;
      [apply (context_kept_emit (PrintTrapframe t) m)
      |apply (context_kept_ret tt m)].
  - apply context_kept_monitor_loop.
Qed.

(** ** Usage errors *)

Lemma find_showmappings {K : Kernel} (fuel : nat) :
  find_command (commands fuel) (chars "showmappings")
  = Some (mkCommand "showmappings"
            "Display information of all physical page mappings"
            (mon_showmappings fuel)).
Proof. reflexivity. Qed.

Lemma find_continue {K : Kernel} (fuel : nat) :
  find_command (commands fuel) (chars "continue")
  = Some (mkCommand "continue" "Continues execution of the environment"
            mon_continue)
  /\ find_command (commands fuel) (chars "c")
     = Some (mkCommand "c" "Continues execution of the environment"
               mon_continue)
  /\ find_command (commands fuel) (chars "si")
     = Some (mkCommand "si"
               "Performs a single instruction of the current environment"
               mon_si).
Proof. repeat split. Qed.

Lemma monitor_loop_break (cmds : list Command) (line : list ascii)
    (rest : list (option (list ascii))) (m m' : machine) (r : Z) :
  runcmd_in cmds line (prompted m) = (Value r, m') -> r < 0 ->
  monitor_loop cmds (Some line :: rest) m = (Value tt, m').
Proof.
  intros Hrun Hr. cbn [monitor_loop]. unfold monitor_turn, bind, emit, ret.
  unfold prompted in Hrun. rewrite Hrun.
  apply Z.ltb_lt in Hr. now rewrite Hr.
Qed.

(** X6: on a line of at most 15 tokens, "showmappings" with any
    number of arguments other than two prints its usage line, looks
    nothing up, and returns -1; since the loop of the monitor is left
    on a negative result, this usage error ends the monitor, and the
    lines behind it are not read. *)
Theorem showmappings_usage_ends_monitor {K : Kernel} (fuel : nat)
    (line : list ascii) (args : list (list ascii))
    (rest : list (option (list ascii))) (m : machine) :
  well_formed line ->
  words line = chars "showmappings" :: args ->
  length args <> 2%nat ->
  (length (words line) <= 15)%nat ->
  runcmd fuel line m
  = (Value (-1), printed "Usage: showmappings <start_addr> <end_addr>\n" [] m)
  /\ monitor_loop (commands fuel) (Some line :: rest) m
     = (Value tt,
        printed "Usage: showmappings <start_addr> <end_addr>\n" []
          (prompted m)).
Proof.
  intros Hwf Hw Hargs Hn.
  assert (Hrun : forall m0, runcmd fuel line m0
            = (Value (-1),
               printed "Usage: showmappings <start_addr> <end_addr>\n" [] m0)).
  { intros m0. unfold runcmd. rewrite runcmd_in_words by auto. rewrite Hw.
    unfold dispatch. cbn [argv_at nth length].
    replace (Z.of_nat (S (length args)) =? 0) with false
      by (symmetry; apply Z.eqb_neq; lia).
    rewrite find_showmappings. cbn [func]. unfold mon_showmappings.
    replace (Z.of_nat (S (length args)) =? 3) with false
      by (symmetry; apply Z.eqb_neq; lia).
    reflexivity. }
  split; [apply Hrun|].
  apply (monitor_loop_break _ _ _ _ _ (-1)); [apply Hrun|lia].
Qed.

Lemma showmappings_usage_ends_monitor_witness :
  runcmd (K := jos) 4 (chars "showmappings 1000") (boot None)
  = (Value (-1),
     printed "Usage: showmappings <start_addr> <end_addr>\n" [] (boot None))
  /\ monitor_loop (commands (K := jos) 4)
       (Some (chars "showmappings 1000") :: [Some (chars "help")]) (boot None)
     = (Value tt,
        printed "Usage: showmappings <start_addr> <end_addr>\n" []
          (prompted (boot None))).
Proof.
  apply (showmappings_usage_ends_monitor (K := jos) 4
           (chars "showmappings 1000") [chars "1000"] [Some (chars "help")]
           (boot None)).
  - unfold well_formed. repeat constructor.
  - reflexivity.
  - simpl. lia.
  - vm_compute. lia.
Defined.

(** X7: on a line of at most 15 tokens, "continue", "c" and "si"
    followed by one or more arguments print their usage line and return
    -1 before they look at the context: there is no panic and no read
    through [tf], whatever the trap number and even without a context;
    the context is left as it is, the environment is not resumed, and
    the monitor ends. *)
Theorem continue_si_usage_ends_monitor {K : Kernel} (fuel : nat)
    (line w a : list ascii) (args : list (list ascii)) (usage : string)
    (rest : list (option (list ascii))) (m : machine) :
  well_formed line ->
  words line = w :: a :: args ->
  (length (words line) <= 15)%nat ->
  ((w = chars "continue" \/ w = chars "c") /\ usage = "Usage: continue\n"%string)
  \/ (w = chars "si" /\ usage = "Usage: si\n"%string) ->
  runcmd fuel line m = (Value (-1), printed usage [] m)
  /\ monitor_loop (commands fuel) (Some line :: rest) m
     = (Value tt, printed usage [] (prompted m)).
Proof.
  intros Hwf Hw Hn Hcmd.
  assert (Hrun : forall m0, runcmd fuel line m0
                            = (Value (-1), printed usage [] m0)).
  { intros m0. unfold runcmd. rewrite runcmd_in_words by auto. rewrite Hw.
    unfold dispatch. cbn [argv_at nth length].
    replace (Z.of_nat (S (S (length args))) =? 0) with false
      by (symmetry; apply Z.eqb_neq; lia).
    destruct (find_continue fuel) as (Hc1 & Hc2 & Hsi).
    destruct Hcmd as [[[-> | ->] ->] | [-> ->]];
      rewrite ?Hc1, ?Hc2, ?Hsi; cbn [func]; unfold mon_continue, mon_si;
      replace (Z.of_nat (S (S (length args))) =? 1) with false
        by (symmetry; apply Z.eqb_neq; lia);
      reflexivity. }
  split; [apply Hrun|].
  apply (monitor_loop_break _ _ _ _ _ (-1)); [apply Hrun|lia].
Qed.

Lemma continue_si_usage_ends_monitor_witness :
  runcmd (K := jos) 4 (chars "si 5")
    {| m_tf := Some (mkTrapframe 14 1048576 514 4026593280 4026593300);
       m_out := [] |}
  = (Value (-1),
     printed "Usage: si\n" []
       {| m_tf := Some (mkTrapframe 14 1048576 514 4026593280 4026593300);
          m_out := [] |})
  /\ monitor_loop (commands (K := jos) 4) (Some (chars "si 5") :: [])
       {| m_tf := Some (mkTrapframe 14 1048576 514 4026593280 4026593300);
          m_out := [] |}
     = (Value tt,
        printed "Usage: si\n" []
          (prompted
             {| m_tf := Some (mkTrapframe 14 1048576 514 4026593280 4026593300);
                m_out := [] |})).
Proof.
  apply (continue_si_usage_ends_monitor (K := jos) 4 (chars "si 5")
           (chars "si") (chars "5") [] "Usage: si\n" []).
  - unfold well_formed. repeat constructor.
  - reflexivity.
  - vm_compute. lia.
  - right. split; reflexivity.
Defined.

(** ** The pages showmappings prints *)

Lemma ROUNDDOWN_aligned (a P : Z) : 0 < P -> ROUNDDOWN a P mod P = 0.
Proof.
  intros HP. unfold ROUNDDOWN.
  rewrite (Z.div_mod a P) at 1 by lia.
  replace (P * (a / P) + a mod P - a mod P) with (a / P * P) by ring.
  apply Z.mod_mul. lia.
Qed.

Lemma pages_aligned {K : Kernel} (n : nat) :
  forall p : Z,
    0 < PGSIZE -> p mod PGSIZE = 0 ->
    length (pages n p) = n
    /\ Forall (fun q => q mod PGSIZE = 0
                        /\ p <= q <= p + (Z.of_nat n - 1) * PGSIZE)
         (pages n p).
Proof.
  induction n as [|n IH]; intros p Hpg Hal; cbn [pages length];
    [split; auto|].
  assert (Hal' : (p + PGSIZE) mod PGSIZE = 0).
  { rewrite <- Z.add_mod_idemp_l, Hal, Z.add_0_l, Z.mod_same by lia.
    reflexivity. }
  destruct (IH (p + PGSIZE) Hpg Hal') as [Hlen Hall]. split.
  - now rewrite Hlen.
  - constructor; [split; [exact Hal|nia]|].
    eapply Forall_impl; [|exact Hall].
    cbn beta. intros q [Hq Hr]. split; [exact Hq|nia].
Qed.

(** X8: on a range in order that ends at most at 2^32 - PGSIZE,
    showmappings looks up and prints, in ascending order and once each,
    the pages from the one that holds the start address up to the last
    one that begins below the end address: ceil((end - floor(start)) /
    PGSIZE) pages, all page-aligned; then it returns 0.  The page that
    holds an unaligned end address is among them. *)
Theorem showmappings_prints_pages_below_end {K : Kernel} (fuel : nat)
    (argv : list (list ascii)) (m : machine) :
  let start_addr := to_uint32 (strtol (argv_at argv 1) 16) in
  let end_addr := to_uint32 (strtol (argv_at argv 2) 16) in
  let start_page := ROUNDDOWN start_addr PGSIZE in
  let n := Z.to_nat ((end_addr - start_page + PGSIZE - 1) / PGSIZE) in
  0 < PGSIZE ->
  start_addr <= end_addr ->
  end_addr + PGSIZE <= 2 ^ 32 ->
  (n <= fuel)%nat ->
  mon_showmappings fuel 3 argv m
  = (Value 0, traced (flat_map page_events (pages n start_page)) m)
  /\ length (pages n start_page) = n
  /\ Forall (fun q => q mod PGSIZE = 0 /\ start_page <= q < end_addr)
       (pages n start_page).
Proof.
  intros start_addr end_addr start_page n Hpg Horder Htop Hfuel.
  split; [now apply mon_showmappings_pages|].
  assert (Hal : start_page mod PGSIZE = 0) by now apply ROUNDDOWN_aligned.
  destruct (pages_aligned n start_page Hpg Hal) as [Hlen Hall].
  split; [exact Hlen|].
  eapply Forall_impl; [|exact Hall]. cbn beta. intros q [Hq Hr].
  split; [exact Hq|]. split; [lia|].
  assert (Hs0 : 0 <= start_addr) by (apply Z.mod_pos_bound; lia).
  assert (Hfloor : start_page <= start_addr).
  { unfold start_page, ROUNDDOWN.
    pose proof (Z.mod_pos_bound start_addr PGSIZE Hpg). lia. }
  set (d := end_addr - start_page) in *.
  assert (Hq0 : 0 <= (d + PGSIZE - 1) / PGSIZE) by (apply Z.div_pos; lia).
  assert (Hn : Z.of_nat n = (d + PGSIZE - 1) / PGSIZE).
  { unfold n. now rewrite Z2Nat.id. }
  assert (Hnz : PGSIZE <> 0) by lia.
  pose proof (Z.div_mod (d + PGSIZE - 1) PGSIZE Hnz) as Hdm.
  pose proof (Z.mod_pos_bound (d + PGSIZE - 1) PGSIZE Hpg) as Hmb.
  rewrite Hn in Hr. unfold d in *. nia.
Qed.

Lemma showmappings_prints_pages_below_end_witness :
  mon_showmappings (K := jos) 8 3
    [chars "showmappings"; chars "1234"; chars "3001"] (boot None)
  = (Value 0,
     traced (flat_map (page_events (K := jos)) (pages (K := jos) 3 4096))
       (boot None))
  /\ length (pages (K := jos) 3 4096) = 3%nat
  /\ Forall (fun q => q mod 4096 = 0 /\ 4096 <= q < 12289)
       (pages (K := jos) 3 4096).
Proof.
  apply (showmappings_prints_pages_below_end (K := jos) 8
           [chars "showmappings"; chars "1234"; chars "3001"] (boot None)).
  - reflexivity.
  - vm_compute. discriminate.
  - vm_compute. discriminate.
  - vm_compute. lia.
Defined.

(** X9: on a range in order whose end address is above 2^32 - PGSIZE,
    showmappings never returns: every page address is below the end
    address, and the addition wraps around to 0.  (PGSIZE divides 2^32.) *)
Theorem showmappings_never_returns_near_top {K : Kernel} (fuel : nat)
    (argv : list (list ascii)) (m : machine) :
  let start_addr := to_uint32 (strtol (argv_at argv 1) 16) in
  let end_addr := to_uint32 (strtol (argv_at argv 2) 16) in
  0 < PGSIZE -> 2 ^ 32 mod PGSIZE = 0 ->
  start_addr <= end_addr ->
  2 ^ 32 - PGSIZE < end_addr ->
  fst (mon_showmappings fuel 3 argv m) = OutOfSteps.
Proof.
  intros start_addr end_addr Hpg Hdiv Horder Htop.
  unfold mon_showmappings. cbn [Z.eqb Pos.eqb negb].
  fold start_addr end_addr.
  replace (end_addr <? start_addr) with false by (symmetry; apply Z.ltb_ge; lia).
  cbv zeta. unfold bind at 1.
  assert (Hs : 0 <= start_addr < 2 ^ 32) by (apply Z.mod_pos_bound; lia).
  assert (Hfloor : 0 <= ROUNDDOWN start_addr PGSIZE < 2 ^ 32).
  { unfold ROUNDDOWN.
    pose proof (Z.mod_pos_bound start_addr PGSIZE Hpg).
    pose proof (Z.mod_le start_addr PGSIZE (proj1 Hs) Hpg). lia. }
  pose proof (showmappings_loop_wraps fuel (ROUNDDOWN start_addr PGSIZE)
                end_addr m Hpg Hdiv Htop Hfloor
                (ROUNDDOWN_aligned start_addr PGSIZE Hpg)) as Hloop.
  destruct (showmappings_loop fuel (ROUNDDOWN start_addr PGSIZE) end_addr m)
    as [o m'].
  cbn [fst] in Hloop. now rewrite Hloop.
Qed.

Lemma showmappings_never_returns_near_top_witness :
  fst (mon_showmappings (K := jos) 100 3
         [chars "showmappings"; chars "ffffe000"; chars "fffff001"] (boot None))
  = OutOfSteps.
Proof.
  apply (showmappings_never_returns_near_top (K := jos) 100
           [chars "showmappings"; chars "ffffe000"; chars "fffff001"]
           (boot None)).
  - reflexivity.
  - reflexivity.
  - vm_compute. discriminate.
  - vm_compute. reflexivity.
Defined.

(** ** backtrace *)

Lemma backtrace_loop_chain {K : Kernel} (frames : list Z) :
  forall (n : nat) (ebp : Z) (m : machine),
    frame_chain ebp frames -> (length frames <= n)%nat ->
    backtrace_loop n ebp m
    = (Value tt, traced (flat_map frame_events frames) m).
Proof.
  induction frames as [|e frames IH]; intros n ebp m Hchain Hn.
  - cbn [frame_chain] in Hchain. subst ebp.
    destruct n; cbn [backtrace_loop flat_map]; cbn [Z.eqb];
      now rewrite traced_nil.
  - destruct Hchain as (-> & Hnz & Hchain).
    destruct n as [|n]; [simpl in Hn; lia|].
    cbn [backtrace_loop flat_map].
    apply Z.eqb_neq in Hnz. rewrite Hnz. cbv zeta.
    unfold bind, cprintf, emit. cbn [m_tf m_out].
    rewrite (IH n (read_word ebp)) by (auto; simpl in Hn; lia).
    unfold traced, frame_events. cbn [m_tf m_out app].
    f_equal. f_equal. now rewrite <- !app_assoc.
Qed.

(** X10: on a chain of k frames that ends with the frame pointer 0,
    backtrace prints its heading and then, for each frame from the
    current one outwards, the two lines of that frame, computed from
    the words at offsets 4 to 24 of the frame; it returns 0 whatever
    its arguments are.  With the frame pointer 0 at the start only the
    heading is printed. *)
Theorem backtrace_prints_frame_chain {K : Kernel} (fuel : nat) (argc : Z)
    (argv : list (list ascii)) (frames : list Z) (m : machine) :
  frame_chain read_ebp frames ->
  (length frames <= fuel)%nat ->
  mon_backtrace fuel argc argv m
  = (Value 0,
     traced (Cprintf "Stack backtrace:\n" [] :: flat_map frame_events frames) m)
  /\ length (flat_map frame_events frames) = (2 * length frames)%nat.
Proof.
  intros Hchain Hn. split.
  - unfold mon_backtrace, bind, cprintf, emit, ret. cbn [m_tf m_out].
    rewrite (backtrace_loop_chain frames fuel read_ebp _ Hchain Hn).
    unfold traced. cbn [m_tf m_out]. now rewrite <- app_assoc.
  - clear. induction frames as [|e frames IH]; [reflexivity|].
    cbn [flat_map length app frame_events]. rewrite IH. lia.
Qed.

Lemma backtrace_prints_frame_chain_witness :
  mon_backtrace (K := jos_with_stack 4096 two_frames) 2 1 [chars "backtrace"]
    (boot None)
  = (Value 0,
     traced (Cprintf "Stack backtrace:\n" []
               :: flat_map (frame_events (K := jos_with_stack 4096 two_frames))
                    [4096; 8192])
       (boot None))
  /\ length (flat_map (frame_events (K := jos_with_stack 4096 two_frames))
               [4096; 8192])
     = (2 * length [4096%Z; 8192%Z])%nat.
Proof.
  apply (backtrace_prints_frame_chain (K := jos_with_stack 4096 two_frames)
           2 1 [chars "backtrace"] [4096; 8192] (boot None)).
  - cbn. repeat split; discriminate.
  - simpl. lia.
Defined.

Lemma backtrace_loop_endless {K : Kernel} (n : nat) :
  forall (ebp : Z) (m : machine),
    (forall k : nat, Nat.iter k read_word ebp <> 0) ->
    fst (backtrace_loop n ebp m) = OutOfSteps.
Proof.
  induction n as [|n IH]; intros ebp m Hnz;
    pose proof (Hnz 0%nat) as H0; cbn [Nat.iter nat_rect] in H0;
    apply Z.eqb_neq in H0; cbn [backtrace_loop]; rewrite H0.
  - reflexivity.
  - cbv zeta. unfold bind, cprintf, emit. cbn [m_tf m_out].
    apply IH. intros k. specialize (Hnz (S k)).
    now rewrite Nat.iter_succ_r in Hnz.
Qed.

(** X11: backtrace has no guard against a chain of frame pointers that
    never reaches 0 (a cycle, say): on such a chain it never returns. *)
Theorem backtrace_never_returns_on_endless_chain {K : Kernel} (fuel : nat)
    (argc : Z) (argv : list (list ascii)) (m : machine) :
  (forall k : nat, Nat.iter k read_word read_ebp <> 0) ->
  fst (mon_backtrace fuel argc argv m) = OutOfSteps.
Proof.
  intros Hnz. unfold mon_backtrace, bind at 1, cprintf, emit.
  cbn [m_tf m_out]. unfold bind.
  pose proof (backtrace_loop_endless fuel read_ebp
                {| m_tf := m_tf m;
                   m_out := m_out m ++ [Cprintf "Stack backtrace:\n" []] |}
                Hnz) as Hloop.
  destruct (backtrace_loop fuel read_ebp _) as [o m'].
  cbn [fst] in Hloop. now rewrite Hloop.
Qed.

Lemma backtrace_never_returns_on_endless_chain_witness :
  fst (mon_backtrace (K := jos_with_stack 4096 (fun _ => 4096)) 50 1
         [chars "backtrace"] (boot None))
  = OutOfSteps.
Proof.
  apply (backtrace_never_returns_on_endless_chain
           (K := jos_with_stack 4096 (fun _ => 4096)) 50 1
           [chars "backtrace"] (boot None)).
  intros k. induction k as [|k IH]; cbn; discriminate.
Defined.

(** ** help and kerninfo *)

Lemma help_loop_events (rows : list (string * string)) (m : machine) :
  help_loop rows m
  = (Value tt,
     traced (map (fun r => Cprintf "%s - %s\n" [Str (fst r); Str (snd r)]) rows) m).
Proof.
  revert m. induction rows as [|[n d] rows IH]; intros m; cbn [help_loop map].
  - unfold ret. now rewrite traced_nil.
  - unfold bind, cprintf, emit. rewrite IH. unfold traced.
    cbn [m_tf m_out fst snd]. now rewrite <- app_assoc.
Qed.

(** X12: help prints one line for each entry of the command table, in
    the order of the table, with the name and the description of the
    entry, and returns 0 whatever its arguments are; and each name it
    prints, typed as a command, is looked up to the very entry it was
    printed for. *)
Theorem help_lists_the_table {K : Kernel} (fuel : nat) (argc : Z)
    (argv : list (list ascii)) (m : machine) :
  mon_help argc argv m
  = (Value 0, traced (map help_line (commands fuel)) m)
  /\ Forall (fun c => find_command (commands fuel) (chars (name c)) = Some c)
       (commands fuel).
Proof.
  split.
  - unfold mon_help, bind. rewrite help_loop_events. reflexivity.
  - repeat constructor.
Qed.

(** X13: when the image is not larger than 2^31 - 1024 bytes, kerninfo
    prints the five symbol lines with the physical addresses taken
    modulo 2^32, and as the footprint the size from [entry] to [end] in
    kilobytes, rounded up: the least [kb] with [end - entry <= 1024 *
    kb]. *)
Theorem kerninfo_footprint_rounds_up {K : Kernel} (argc : Z)
    (argv : list (list ascii)) (m : machine) :
  0 <= sym_end - sym_entry ->
  sym_end - sym_entry + 1023 < 2 ^ 31 ->
  let kb := (sym_end - sym_entry + 1023) / 1024 in
  mon_kerninfo argc argv m
  = (Value 0,
     traced
       [ Cprintf "Special kernel symbols:\n" [];
         Cprintf "  _start                  %08x (phys)\n" [Num sym_start];
         Cprintf "  entry  %08x (virt)  %08x (phys)\n"
           [Num sym_entry; Num ((sym_entry - KERNBASE) mod 2 ^ 32)];
         Cprintf "  etext  %08x (virt)  %08x (phys)\n"
           [Num sym_etext; Num ((sym_etext - KERNBASE) mod 2 ^ 32)];
         Cprintf "  edata  %08x (virt)  %08x (phys)\n"
           [Num sym_edata; Num ((sym_edata - KERNBASE) mod 2 ^ 32)];
         Cprintf "  end    %08x (virt)  %08x (phys)\n"
           [Num sym_end; Num ((sym_end - KERNBASE) mod 2 ^ 32)];
         Cprintf "Kernel executable memory footprint: %dKB\n" [Num kb] ] m)
  /\ 1024 * (kb - 1) < sym_end - sym_entry <= 1024 * kb.
Proof.
  intros Hlow Hhigh kb.
  set (a := sym_end - sym_entry) in *.
  assert (Hkb : Z.quot (to_int32 (ROUNDUP a 1024)) 1024 = kb).
  { unfold ROUNDUP, ROUNDDOWN, to_int32, to_uint32.
    rewrite (Z.mod_small a) by lia.
    rewrite (Z.mod_small (a + 1024 - 1)) by lia.
    replace (a + 1024 - 1) with (a + 1023) by lia.
    pose proof (Z.div_mod (a + 1023) 1024 ltac:(lia)) as Hdm.
    pose proof (Z.mod_pos_bound (a + 1023) 1024 ltac:(lia)) as Hmb.
    replace (a + 1023 - (a + 1023) mod 1024) with (1024 * kb)
      by (unfold kb; lia).
    assert (Hk0 : 0 <= kb) by (apply Z.div_pos; lia).
    rewrite (Z.mod_small (1024 * kb + 2 ^ 31)) by (unfold kb in *; lia).
    replace (1024 * kb + 2 ^ 31 - 2 ^ 31) with (kb * 1024) by lia.
    rewrite Z.quot_div_nonneg by lia. apply Z.div_mul. lia. }
  split.
  - unfold mon_kerninfo, bind, cprintf, emit, ret, traced, to_uint32.
    cbn [m_tf m_out]. fold a. rewrite Hkb.
    repeat rewrite <- app_assoc. reflexivity.
  - pose proof (Z.div_mod (a + 1023) 1024 ltac:(lia)) as Hdm.
    pose proof (Z.mod_pos_bound (a + 1023) 1024 ltac:(lia)) as Hmb.
    unfold kb. lia.
Qed.

Lemma kerninfo_footprint_rounds_up_witness :
  let kb := (4027800000 - 4027580428 + 1023) / 1024 in
  mon_kerninfo (K := jos) 1 [chars "kerninfo"] (boot None)
  = (Value 0,
     traced
       [ Cprintf "Special kernel symbols:\n" [];
         Cprintf "  _start                  %08x (phys)\n" [Num 1048588];
         Cprintf "  entry  %08x (virt)  %08x (phys)\n"
           [Num 4027580428; Num ((4027580428 - 4026531840) mod 2 ^ 32)];
         Cprintf "  etext  %08x (virt)  %08x (phys)\n"
           [Num 4027600000; Num ((4027600000 - 4026531840) mod 2 ^ 32)];
         Cprintf "  edata  %08x (virt)  %08x (phys)\n"
           [Num 4027700000; Num ((4027700000 - 4026531840) mod 2 ^ 32)];
         Cprintf "  end    %08x (virt)  %08x (phys)\n"
           [Num 4027800000; Num ((4027800000 - 4026531840) mod 2 ^ 32)];
         Cprintf "Kernel executable memory footprint: %dKB\n" [Num kb] ]
       (boot None))
  /\ 1024 * (kb - 1) < 4027800000 - 4027580428 <= 1024 * kb.
Proof.
  apply (kerninfo_footprint_rounds_up (K := jos) 1 [chars "kerninfo"] (boot None)).
  - vm_compute. discriminate.
  - vm_compute. reflexivity.
Defined.

(** ** The trace flag *)

Lemma bits_above_uint32 (x n : Z) :
  0 <= x < 2 ^ 32 -> 32 <= n -> Z.testbit x n = false.
Proof.
  intros Hx Hn. rewrite <- (Z.mod_small x (2 ^ 32)) by lia.
  apply Z.mod_pow2_bits_high. lia.
Qed.

Lemma clear_tf_bit_high (e n : Z) :
  32 <= n -> Z.testbit (clear_tf_bit e) n = false.
Proof.
  intros Hn. unfold clear_tf_bit, to_uint32. rewrite Z.land_spec.
  rewrite (Z.mod_pow2_bits_high _ 32 n) by lia. apply andb_false_r.
Qed.

Lemma clear_set_tf_bit (e : Z) :
  0 <= e < 2 ^ 32 -> Z.testbit e 8 = false ->
  clear_tf_bit (set_tf_bit e) = e.
Proof.
  intros He Hbit. apply Z.bits_inj'. intros n Hn.
  destruct (Z.lt_ge_cases n 32) as [Hlt|Hge].
  - rewrite clear_tf_bit_spec by lia.
    destruct (Z.eqb_spec n 8) as [->|Hne]; [now rewrite Hbit|].
    rewrite set_tf_bit_spec by lia.
    apply Z.eqb_neq in Hne. now rewrite Hne.
  - rewrite clear_tf_bit_high by lia. symmetry. now apply bits_above_uint32.
Qed.

(** X14: a single step followed by continue gives the saved flags back.
    When si runs on a context whose flags are a 32-bit value with bit 8
    clear, the context it resumes has bit 8 of the flags set, the flags
    still a 32-bit value; and when the single-step trap that follows
    brings these flags back to the monitor, the context continue
    resumes has exactly the flags that were there before si. *)
Theorem si_then_continue_restores_flags {K : Kernel}
    (argv argv' : list (list ascii)) (t : Trapframe) (out : list event) :
  tf_trapno t = T_BRKPT \/ tf_trapno t = T_DEBUG ->
  0 <= tf_eflags t < 2 ^ 32 ->
  Z.testbit (tf_eflags t) 8 = false ->
  exists t1 : Trapframe,
    mon_si 1 argv {| m_tf := Some t; m_out := out |}
    = (Resumed, {| m_tf := Some t1; m_out := out |})
    /\ Z.testbit (tf_eflags t1) 8 = true
    /\ 0 <= tf_eflags t1 < 2 ^ 32
    /\ forall (t2 : Trapframe) (out' : list event),
         tf_trapno t2 = T_DEBUG ->
         tf_eflags t2 = tf_eflags t1 ->
         exists t3 : Trapframe,
           mon_continue 1 argv' {| m_tf := Some t2; m_out := out' |}
           = (Resumed, {| m_tf := Some t3; m_out := out' |})
           /\ tf_eflags t3 = tf_eflags t.
Proof.
  intros Hsupp He Hbit.
  exists (set_eflags t (set_tf_bit (tf_eflags t))).
  cbn [set_eflags tf_eflags]. split; [|split; [|split]].
  - unfold mon_si, bind, ret, panic, env_run, tf_get, tf_put_eflags. cbn.
    replace (negb (tf_trapno t =? T_BRKPT) && negb (tf_trapno t =? T_DEBUG))
      with false; [reflexivity|].
    destruct Hsupp as [H|H]; apply Z.eqb_eq in H; rewrite H; cbn;
      [reflexivity|now rewrite andb_false_r].
  - now rewrite set_tf_bit_spec by lia.
  - unfold set_tf_bit, to_uint32. apply Z.mod_pos_bound. lia.
  - intros t2 out' Hd Hflags.
    exists (set_eflags t2 (clear_tf_bit (tf_eflags t2))).
    cbn [set_eflags tf_eflags]. split.
    + unfold mon_continue, bind, ret, panic, env_run, tf_get, tf_put_eflags.
      cbn. apply Z.eqb_eq in Hd. rewrite Hd, andb_false_r. cbn. rewrite Hd.
      reflexivity.
    + rewrite Hflags. now apply clear_set_tf_bit.
Qed.

Lemma si_then_continue_restores_flags_witness :
  exists t1 : Trapframe,
    mon_si (K := jos) 1 [chars "si"]
      {| m_tf := Some (mkTrapframe 3 1048576 514 4026593280 4026593300);
         m_out := [] |}
    = (Resumed, {| m_tf := Some t1; m_out := [] |})
    /\ Z.testbit (tf_eflags t1) 8 = true
    /\ 0 <= tf_eflags t1 < 2 ^ 32
    /\ forall (t2 : Trapframe) (out' : list event),
         tf_trapno t2 = 1 ->
         tf_eflags t2 = tf_eflags t1 ->
         exists t3 : Trapframe,
           mon_continue (K := jos) 1 [chars "c"]
             {| m_tf := Some t2; m_out := out' |}
           = (Resumed, {| m_tf := Some t3; m_out := out' |})
           /\ tf_eflags t3 = 514.
Proof.
  apply (si_then_continue_restores_flags (K := jos) [chars "si"] [chars "c"]
           (mkTrapframe 3 1048576 514 4026593280 4026593300) []).
  - left. reflexivity.
  - simpl. lia.
  - reflexivity.
Defined.

(** ** A monitor nobody talks to *)

Lemma monitor_loop_idle (cmds : list Command)
    (input : list (option (list ascii))) :
  Forall idle input ->
  forall m : machine,
    monitor_loop cmds input m
    = (Blocked, traced (repeat (Readline "K> ") (S (length input))) m).
Proof.
  induction 1 as [|buf input Hbuf Hall IH]; intros m.
  - reflexivity.
  - cbn [monitor_loop length repeat].
    assert (Hturn : monitor_turn cmds buf m = (Value Continue, prompted m)).
    { destruct buf as [line|]; [|reflexivity].
      destruct Hbuf as [Hwf Hw].
      unfold monitor_turn, bind, emit.
      rewrite runcmd_in_words by (auto; rewrite Hw; simpl; lia).
      rewrite Hw. reflexivity. }
    unfold bind at 1. rewrite Hturn, IH. unfold traced, prompted.
    cbn [m_tf m_out length repeat]. now rewrite <- app_assoc.
Qed.

(** X15: as long as [readline] hands back NULL or lines without tokens,
    the monitor runs no command and prints nothing but prompts: after
    the banner (the two greeting lines and, when there is a context,
    the trap frame, once) it shows one prompt per read and waits at the
    next one, with the context untouched. *)
Theorem monitor_idles_on_empty_reads {K : Kernel} (fuel : nat)
    (input : list (option (list ascii))) (m : machine) :
  Forall idle input ->
  monitor fuel input m
  = (Blocked,
     traced (banner (m_tf m) ++ repeat (Readline "K> ") (S (length input))) m).
Proof.
  intros Hidle. unfold monitor, monitor_in, bind, cprintf, emit.
  cbn [m_tf m_out].
  destruct (m_tf m) as [t|] eqn:Et; unfold ret; cbn [m_tf m_out];
    rewrite (monitor_loop_idle _ _ Hidle); unfold traced, banner;
    cbn [m_tf m_out app]; rewrite ?Et; repeat rewrite <- app_assoc;
    reflexivity.
Qed.

Lemma monitor_idles_on_empty_reads_witness :
  monitor (K := jos) 0 [None; Some (chars "  "); Some []]
    (boot (Some (mkTrapframe 3 1048576 514 4026593280 4026593300)))
  = (Blocked,
     traced
       (banner (Some (mkTrapframe 3 1048576 514 4026593280 4026593300))
          ++ repeat (Readline "K> ") 4)
       (boot (Some (mkTrapframe 3 1048576 514 4026593280 4026593300)))).
Proof.
  apply (monitor_idles_on_empty_reads (K := jos) 0
           [None; Some (chars "  "); Some []]
           (boot (Some (mkTrapframe 3 1048576 514 4026593280 4026593300)))).
  repeat constructor.
Defined.

(** ** The tokenizer and the buffer *)

(** One turn of the parsing loop, with anything behind the terminator
    of the line. *)
Lemma parse_loop_token_tail (s t rest tail pre : list ascii)
    (argv : list nat) (k : nat) :
  blank s -> token t -> delimited rest ->
  parse_loop (S k) (pre ++ (s ++ t ++ rest) ++ NUL :: tail) (length pre) argv
  = if Z.of_nat (length argv) =? MAXARGS - 1 then Some TooMany
    else parse_loop k ((pre ++ map zero_ws s ++ t) ++ rest ++ NUL :: tail)
           (length (pre ++ map zero_ws s ++ t))
           (argv ++ [(length pre + length s)%nat]).
Proof.
  intros Hs Ht Hd. cbn [parse_loop].
  replace (pre ++ (s ++ t ++ rest) ++ NUL :: tail)
    with (pre ++ s ++ (t ++ rest ++ NUL :: tail))
    by now rewrite <- !app_assoc.
  rewrite (gobble_blank s Hs pre (t ++ rest ++ NUL :: tail))
    by (first [now apply token_gobbles | rewrite !length_app; lia]).
  replace (pre ++ map zero_ws s ++ t ++ rest ++ NUL :: tail)
    with ((pre ++ map zero_ws s) ++ t ++ rest ++ NUL :: tail)
    by now rewrite <- !app_assoc.
  replace (length pre + length s)%nat with (length (pre ++ map zero_ws s))
    by now rewrite length_app, length_map.
  rewrite peek_app, (token_peek t _ Ht).
  destruct (Z.of_nat (length argv) =? MAXARGS - 1); [reflexivity|].
  assert (Hstop : scans (hd NUL (rest ++ NUL :: tail)) = false).
  { destruct rest as [|c rest]; [reflexivity|]. now apply scans_ws. }
  rewrite (scan_arg_token t (proj2 Ht) (pre ++ map zero_ws s)
             (rest ++ NUL :: tail) _ Hstop)
    by (rewrite !length_app, ?length_map; lia).
  f_equal.
  - now rewrite <- !app_assoc.
  - rewrite !length_app. lia.
Qed.

Lemma parse_loop_blank_tail (s tail pre : list ascii) (argv : list nat)
    (k : nat) :
  blank s ->
  parse_loop (S k) (pre ++ s ++ NUL :: tail) (length pre) argv
  = Some (Args (pre ++ map zero_ws s ++ NUL :: tail) argv).
Proof.
  intros Hs. cbn [parse_loop].
  rewrite (gobble_blank s Hs pre (NUL :: tail))
    by (first [reflexivity | rewrite !length_app; lia]).
  replace (pre ++ map zero_ws s ++ NUL :: tail)
    with ((pre ++ map zero_ws s) ++ NUL :: tail)
    by now rewrite <- !app_assoc.
  replace (length pre + length s)%nat with (length (pre ++ map zero_ws s))
    by now rewrite length_app, length_map.
  rewrite peek_app. reflexivity.
Qed.

Lemma zero_ws_delimited_tail (rest tail : list ascii) :
  delimited rest ->
  exists r, map zero_ws rest ++ NUL :: tail = NUL :: r.
Proof.
  destruct rest as [|c rest]; simpl; intros Hd.
  - eauto.
  - unfold zero_ws at 1. rewrite Hd. eauto.
Qed.

Lemma parse_loop_splits_tail (rest : list ascii) (toks : list (list ascii)) :
  splits rest toks ->
  forall (pre tail : list ascii) (argv : list nat) (fuel : nat),
    (length argv + length toks <= 15)%nat ->
    (length toks < fuel)%nat ->
    exists offs : list nat,
      parse_loop fuel (pre ++ rest ++ NUL :: tail) (length pre) argv
      = Some (Args (pre ++ map zero_ws rest ++ NUL :: tail) (argv ++ offs))
      /\ length offs = length toks
      /\ forall pre' : list ascii,
           length pre' = length pre ->
           views (pre' ++ map zero_ws rest ++ NUL :: tail) offs = toks.
Proof.
  induction 1 as [s Hs|s t rest toks Hs Ht Hd Hsp IH];
    intros pre tail argv fuel Hargc Hfuel.
  - destruct fuel as [|k]; [simpl in Hfuel; lia|].
    exists []. rewrite (parse_loop_blank_tail s tail pre argv k Hs), app_nil_r.
    repeat split.
  - destruct fuel as [|k]; [simpl in Hfuel; lia|].
    simpl in Hargc, Hfuel.
    rewrite (parse_loop_token_tail s t rest tail pre argv k Hs Ht Hd).
    replace (Z.of_nat (length argv) =? MAXARGS - 1) with false
      by (symmetry; apply Z.eqb_neq; unfold MAXARGS; lia).
    destruct (IH (pre ++ map zero_ws s ++ t) tail
                (argv ++ [(length pre + length s)%nat]) k)
      as (offs & Hrun & Hlen & Hviews).
    { rewrite length_app. simpl. lia. }
    { lia. }
    exists ((length pre + length s)%nat :: offs).
    rewrite Hrun. split; [|split].
    + f_equal. f_equal.
      * rewrite !map_app, (zero_ws_token t (proj2 Ht)).
        now rewrite <- !app_assoc.
      * now rewrite <- app_assoc.
    + simpl. now rewrite Hlen.
    + intros pre' Hlen'. unfold views. cbn [map]. f_equal.
      * rewrite !map_app, (zero_ws_token t (proj2 Ht)).
        destruct (zero_ws_delimited_tail rest tail Hd) as (r & Hr).
        replace (pre' ++ (map zero_ws s ++ t ++ map zero_ws rest) ++ NUL :: tail)
          with ((pre' ++ map zero_ws s) ++ t ++ (map zero_ws rest ++ NUL :: tail))
          by now rewrite <- !app_assoc.
        replace (length pre + length s)%nat
          with (length (pre' ++ map zero_ws s))
          by (rewrite length_app, length_map; lia).
        rewrite cstr_app, Hr. apply cstr_of_token, Ht.
      * specialize (Hviews (pre' ++ map zero_ws s ++ t)).
        unfold views in Hviews.
        rewrite !map_app, (zero_ws_token t (proj2 Ht)).
        replace (pre' ++ (map zero_ws s ++ t ++ map zero_ws rest) ++ NUL :: tail)
          with ((pre' ++ map zero_ws s ++ t) ++ map zero_ws rest ++ NUL :: tail)
          by now rewrite <- !app_assoc.
        apply Hviews. rewrite !length_app, !length_map. lia.
Qed.

Lemma cstr_nonempty (mem : list ascii) (p : nat) :
  cstr mem p <> [] -> is_nul (peek mem p) = false.
Proof.
  unfold cstr, peek. revert p.
  induction mem as [|c mem IH]; intros [|p]; cbn [skipn cstr_of nth];
    try congruence.
  - destruct (is_nul c); congruence.
  - apply IH.
Qed.

Lemma peek_zeroed (line tail : list ascii) (p : nat) :
  is_nul (peek (map zero_ws line ++ NUL :: tail) p) = false ->
  (p < length line)%nat ->
  is_ws (nth p line NUL) = false.
Proof.
  intros Hc Hp. unfold peek in Hc.
  rewrite app_nth1 in Hc by now rewrite length_map.
  rewrite (nth_indep _ NUL (zero_ws NUL)) in Hc by now rewrite length_map.
  rewrite map_nth in Hc. unfold zero_ws in Hc.
  destruct (is_ws (nth p line NUL)); [discriminate|reflexivity].
Qed.

(** X16: parsing a well-formed line of at most 15 tokens changes the
    buffer in one way only: every whitespace character has become a
    terminator; all other characters and the length are as they were.
    [argv] has one pointer per token, each to a place inside the line
    that holds a character of a token, and the strings they point to
    are the tokens. *)
Theorem parse_overwrites_only_whitespace (line : list ascii) :
  well_formed line ->
  (length (words line) <= 15)%nat ->
  exists argv : list nat,
    parse line = Some (Args (map zero_ws line ++ [NUL]) argv)
    /\ length argv = length (words line)
    /\ views (map zero_ws line ++ [NUL]) argv = words line
    /\ Forall (fun p => (p < length line)%nat /\ is_ws (nth p line NUL) = false)
         argv.
Proof.
  intros Hwf Hn. pose proof (splits_words line Hwf) as Hsp.
  pose proof (splits_length _ _ Hsp) as Hlen.
  destruct (parse_loop_splits_tail line (words line) Hsp [] [] []
              (S (length (line ++ [NUL]))))
    as (argv & Hrun & Hargc & Hviews).
  { simpl. lia. }
  { rewrite length_app. simpl. lia. }
  specialize (Hviews [] eq_refl). cbn [app] in Hrun, Hviews.
  exists argv. repeat split; auto.
  pose proof (words_nonempty line Hwf) as Hne. rewrite <- Hviews in Hne.
  unfold views in Hne. rewrite Forall_map in Hne.
  eapply Forall_impl; [|exact Hne]. cbn beta. intros p Hp.
  apply cstr_nonempty in Hp.
  assert (Hin : (p < length line)%nat).
  { destruct (Nat.lt_ge_cases p (length line)) as [H|H]; [exact H|].
    exfalso. unfold peek in Hp.
    rewrite app_nth2 in Hp by now rewrite length_map.
    rewrite length_map in Hp.
    destruct (p - length line)%nat as [|[|q]]; cbn in Hp; discriminate. }
  split; [exact Hin|]. now apply (peek_zeroed line []).
Qed.

Lemma parse_overwrites_only_whitespace_witness :
  exists argv : list nat,
    parse (chars " si  x") = Some (Args (map zero_ws (chars " si  x") ++ [NUL]) argv)
    /\ length argv = length (words (chars " si  x"))
    /\ views (map zero_ws (chars " si  x") ++ [NUL]) argv = words (chars " si  x")
    /\ Forall (fun p => (p < length (chars " si  x"))%nat
                        /\ is_ws (nth p (chars " si  x") NUL) = false)
         argv.
Proof.
  apply (parse_overwrites_only_whitespace (chars " si  x")).
  - unfold well_formed. repeat constructor.
  - vm_compute. lia.
Defined.

(** X17: the tokenizer stops at the first terminator of the buffer:
    what lies behind it is neither taken for tokens nor overwritten,
    whatever it is. *)
Theorem parse_stops_at_terminator (line tail : list ascii) :
  well_formed line ->
  (length (words line) <= 15)%nat ->
  exists argv : list nat,
    parse (line ++ NUL :: tail)
    = Some (Args (map zero_ws line ++ NUL :: tail ++ [NUL]) argv)
    /\ views (map zero_ws line ++ NUL :: tail ++ [NUL]) argv = words line.
Proof.
  intros Hwf Hn. pose proof (splits_words line Hwf) as Hsp.
  pose proof (splits_length _ _ Hsp) as Hlen.
  destruct (parse_loop_splits_tail line (words line) Hsp [] (tail ++ [NUL]) []
              (S (length ((line ++ NUL :: tail) ++ [NUL]))))
    as (argv & Hrun & _ & Hviews).
  { simpl. lia. }
  { rewrite !length_app. simpl. lia. }
  specialize (Hviews [] eq_refl). cbn [app] in Hrun, Hviews.
  exists argv. split; [|exact Hviews].
  unfold parse. cbn zeta. rewrite <- Hrun. f_equal.
  rewrite <- app_assoc. reflexivity.
Qed.

Lemma parse_stops_at_terminator_witness :
  exists argv : list nat,
    parse (chars "c x" ++ NUL :: chars "si y")
    = Some (Args (map zero_ws (chars "c x") ++ NUL :: chars "si y" ++ [NUL]) argv)
    /\ views (map zero_ws (chars "c x") ++ NUL :: chars "si y" ++ [NUL]) argv
       = words (chars "c x").
Proof.
  apply (parse_stops_at_terminator (chars "c x") (chars "si y")).
  - unfold well_formed. repeat constructor.
  - vm_compute. lia.
Defined.

(** X18: the tokenizer comes to an end on every buffer, well formed or
    not: the two inner loops and the outer loop of [runcmd] stop within
    the length of the buffer, so the first half of [runcmd] always
    yields its token views or the report of too many arguments. *)
Theorem tokenize_terminates (line : list ascii) (m : machine) :
  exists (r : option (list (list ascii))) (m' : machine),
    tokenize line m = (Value r, m').
Proof.
  unfold tokenize. destruct (parse_total line) as [[|mem argv] ->];
    unfold bind, cprintf, emit, ret; cbv beta iota; eauto.
Qed.
